(** * Schedule reconciliation of [app/reminders.py]

    A shallow embedding of the reminder scheduler: the time normaliser
    ([normalize_time]), the row parser ([parse_row]), the job registry
    operations ([schedule_job]) and one refresh cycle ([refresh_schedule])
    with its poll wrapper.

    Python strings are sequences of Unicode code points; they are modelled
    as [list N].  The scheduler's job store is a finite map from job ids to
    jobs.  Exceptions and the log are threaded through a small state and
    error monad. *)

From Stdlib Require Import NArith ZArith String Ascii.
From stdpp Require Import gmap list pretty.

Local Open Scope N_scope.

(** Case analysis on the comparisons of code points in the goal. *)
Ltac cmp_cases :=
  repeat match goal with
  | |- context [N.leb ?a ?b] => destruct (N.leb_spec a b); try lia
  | |- context [N.ltb ?a ?b] => destruct (N.ltb_spec a b); try lia
  | |- context [N.eqb ?a ?b] => destruct (N.eqb_spec a b); try lia
  end.

(** ** Strings as code points *)

Abbreviation str := (list N).

(** UTF-8 decoding, used only to write the source's literals legibly. *)
Fixpoint utf8_go (need : nat) (acc : N) (bs : list N) : str :=
  match bs with
  | [] => []
  | b :: bs' =>
      match need with
      | O =>
          if b <? 128 then b :: utf8_go 0 0 bs'
          else if b <? 224 then utf8_go 1 (b - 192) bs'
          else if b <? 240 then utf8_go 2 (b - 224) bs'
          else utf8_go 3 (b - 240) bs'
      | S O => (acc * 64 + (b - 128)) :: utf8_go 0 0 bs'
      | S n => utf8_go n (acc * 64 + (b - 128)) bs'
      end
  end.

Definition utf8 (s : string) : str :=
  utf8_go 0 0 (map N_of_ascii (list_ascii_of_string s)).

(** [str.isspace] of one character: the code points CPython's
    [_PyUnicode_IsWhitespace] accepts.  The regular expression class [\s]
    on [str] patterns uses the same test. *)
Definition isspace (c : N) : bool :=
  ((9 <=? c) && (c <=? 13)) || ((28 <=? c) && (c <=? 32))
  || (c =? 133) || (c =? 160) || (c =? 5760)
  || ((8192 <=? c) && (c <=? 8202))
  || (c =? 8232) || (c =? 8233) || (c =? 8239) || (c =? 8287)
  || (c =? 12288).

Fixpoint lstrip (s : str) : str :=
  match s with
  | c :: s' => if isspace c then lstrip s' else s
  | [] => []
  end.

Definition rstrip (s : str) : str := rev (lstrip (rev s)).

(** [s.strip()] *)
Definition strip (s : str) : str := rstrip (lstrip s).

Fixpoint startswith (p s : str) : bool :=
  match p, s with
  | [], _ => true
  | a :: p', b :: s' => (a =? b) && startswith p' s'
  | _ :: _, [] => false
  end.

Fixpoint str_eqb (a b : str) : bool :=
  match a, b with
  | [], [] => true
  | x :: a', y :: b' => (x =? y) && str_eqb a' b'
  | _, _ => false
  end.

(** ** Exceptions *)

Inductive stage := Authorize | OpenSheet | OpenWorksheet | ReadValues.

Inductive exn :=
| IndexError
| TypeError
| ValueError
| SourceError (at_stage : stage).

Inductive outcome (A : Type) :=
| Ok (a : A)
| Raise (e : exn).
Arguments Ok {A} a.
Arguments Raise {A} e.

#[export] Instance outcome_ret : MRet outcome := fun A a => Ok a.

#[export] Instance outcome_bind : MBind outcome := fun A B f x =>
  match x with
  | Ok a => f a
  | Raise e => Raise e
  end.

(** ** Regular expressions

    The fragment of [re] the module uses: anchors, greedy bounded and
    unbounded repetition of a character class, capturing groups, an optional
    group and concatenation, matched by backtracking with the first match
    winning, as [re.match] and [re.search] do. *)

Inductive catom :=
| ADigit            (* \d *)
| ASpace            (* \s *)
| AChr (c : N).     (* a literal character *)

(** a character class [[...]]; a single atom is the one-element class *)
Abbreviation cset := (list catom).

Inductive regex :=
| Bol                                            (* ^ *)
| Eol                                            (* $ *)
| Rep (k : cset) (lo : nat) (hi : option nat)    (* k{lo,hi}, greedy *)
| Grp (n : nat) (r : regex)                      (* ( r ), group number n *)
| Opt (r : regex)                                (* (?: r )? *)
| Cat (r1 r2 : regex).

Arguments Rep k lo%_nat hi.
Arguments Grp n%_nat r.

Infix "+++" := Cat (at level 60, right associativity).

Abbreviation groups := (list (nat * str)).

Record match_obj := MatchObj {
  m_start : nat;
  m_end : nat;
  m_text : str;         (* group 0 *)
  m_groups : groups
}.

Definition is_zero (hi : option nat) : bool :=
  match hi with Some O => true | _ => false end.

Fixpoint assoc (n : nat) (g : groups) : option str :=
  match g with
  | [] => None
  | (k, v) :: g' => if Nat.eqb k n then Some v else assoc n g'
  end.

(** [m.group(n)]; [None] for a group that took no part in the match *)
Definition group (m : match_obj) (n : nat) : option str :=
  match n with
  | O => Some (m_text m)
  | S _ => assoc n (m_groups m)
  end.

(** ** Items, jobs and the log *)

(** The dictionary [parse_row] returns; its ["type"] entry is the
    constructor. *)
Inductive item :=
| Daily (key message : str) (hour minute : N)
| Weekly (key message : str) (dow hour minute : N)
| Monthly (key message : str) (dom hour minute : N).

Definition item_key (it : item) : str :=
  match it with
  | Daily k _ _ _ => k
  | Weekly k _ _ _ _ => k
  | Monthly k _ _ _ _ => k
  end.

Definition item_message (it : item) : str :=
  match it with
  | Daily _ m _ _ => m
  | Weekly _ m _ _ _ => m
  | Monthly _ m _ _ _ => m
  end.

(** The reason [_warn] is called with. *)
Inductive reason :=
| EmptyMessage
| BadTime (time_raw : str)
| BadWeekday (weekday_raw : str)
| BadDayOfMonth (date_raw : str)
| UnknownPeriod (period : str).

Inductive log_record :=
| RowWarning (idx : nat) (why : reason)      (* _warn *)
| SheetEmpty                                 (* refresh_schedule *)
| RefreshDone (planned active : nat)         (* refresh_schedule *)
| NoJobs                                     (* debug_list_jobs *)
| JobsListing (ids : list str)               (* debug_list_jobs *)
| NoAccess                                   (* get_sheet *)
| RefreshFailed (e : exn).                   (* poll *)

Inductive trigger :=
| CronDaily (hour minute : N)
| CronWeekly (day_of_week hour minute : N)
| CronMonthly (day hour minute : N)
| Interval (seconds : N).

(** what a job runs: [send] with its text, or the poll of [main] *)
Inductive callback :=
| Send (text : str)
| Poll.

Record job := Job { job_trigger : trigger; job_func : callback }.

(** The scheduler's job store and the log. *)
Record world := World { jobs : gmap str job; logs : list log_record }.

(** State and exceptions: a computation runs on a state and ends with a
    value or a raised exception, the state surviving either way. *)
Definition M (St A : Type) : Type := St -> outcome A * St.

#[export] Instance M_ret St : MRet (M St) := fun A a s => (Ok a, s).

#[export] Instance M_bind St : MBind (M St) := fun A B f m s =>
  match m s with
  | (Ok a, s') => f a s'
  | (Raise e, s') => (Raise e, s')
  end.

Definition raise {St A} (e : exn) : M St A := fun s => (Raise e, s).

Definition lift {St A} (x : outcome A) : M St A := fun s => (x, s).

(** [try: m except Exception as e: h e] *)
Definition try_except {St A} (m : M St A) (h : exn -> M St A) : M St A :=
  fun s =>
    match m s with
    | (Ok a, s') => (Ok a, s')
    | (Raise e, s') => h e s'
    end.

(** [_warn] *)
Definition warn (idx : nat) (why : reason) : M (list log_record) unit :=
  fun l => (Ok tt, l ++ [RowWarning idx why]).

(** run a computation that only writes the log *)
Definition logging {A} (m : M (list log_record) A) : M world A :=
  fun w => let (r, l) := m (logs w) in (r, World (jobs w) l).

Definition log (r : log_record) : M world unit :=
  fun w => (Ok tt, World (jobs w) (logs w ++ [r])).

(** [scheduler.get_job], [job.remove], [scheduler.add_job] and
    [scheduler.get_jobs] *)
Definition get_job (id : str) : M world (option job) :=
  fun w => (Ok (jobs w !! id), w).

Definition remove_job (id : str) : M world unit :=
  fun w => (Ok tt, World (delete id (jobs w)) (logs w)).

Definition add_job (id : str) (j : job) : M world unit :=
  fun w => (Ok tt, World (<[id := j]> (jobs w)) (logs w)).

Definition get_jobs : M world (list (str * job)) :=
  fun w => (Ok (map_to_list (jobs w)), w).

(** [str(n)] of a non-negative integer *)
Definition py_str (n : nat) : str :=
  map N_of_ascii (list_ascii_of_string (pretty n)).

Definition row_prefix : str := Eval cbv in utf8 "row-".

(** [f"row-{idx}"] *)
Definition row_key (idx : nat) : str := row_prefix ++ py_str idx.

(** lookup in a dictionary written as its list of entries *)
Fixpoint dict_get (d : list (str * N)) (k : str) : option N :=
  match d with
  | [] => None
  | (k', v) :: d' => if str_eqb k k' then Some v else dict_get d' k
  end.

Definition WEEKDAY_MAP : list (str * N) := Eval cbv in
  [ (utf8 "понедельник", 0); (utf8 "вторник", 1); (utf8 "среда", 2);
    (utf8 "четверг", 3); (utf8 "пятница", 4); (utf8 "суббота", 5);
    (utf8 "воскресенье", 6);
    (utf8 "пн", 0); (utf8 "вт", 1); (utf8 "ср", 2); (utf8 "чт", 3);
    (utf8 "пт", 4); (utf8 "сб", 5); (utf8 "вс", 6) ].

(** the statuses that switch a row on *)
Definition truthy : list str := Eval cbv in
  [ utf8 "TRUE"; utf8 "1"; utf8 "ДА"; utf8 "TRUE✓" ].

Definition str_in (s : str) (l : list str) : bool := existsb (str_eqb s) l.

Definition period_daily : str := Eval cbv in utf8 "день".
Definition period_weekly : str := Eval cbv in utf8 "неделя".
Definition period_monthly : str := Eval cbv in utf8 "месяц".

(** What the row source does when asked for the grid: it fails at one of
    its stages or yields the grid of cells. *)
Inductive source :=
| Unavailable (st : stage)
| Sheet (values : list (list str)).

(** ** The Unicode character database

    The tables of the interpreter's Unicode database are not part of the
    repository.  ASCII, and the Cyrillic block U+0400..U+045F for case
    mapping, are written out below; the rest of the tables is a parameter. *)
Class UnicodeData := {
  (** decimal value of a non-ASCII character of category Nd *)
  unicode_decimal : N -> option N;
  (** [str.upper] and [str.lower] of a string that has a character outside
      ASCII and U+0400..U+045F *)
  unicode_upper : str -> str;
  unicode_lower : str -> str;
  unicode_decimal_lt : forall c d, unicode_decimal c = Some d -> d < 10;
  unicode_decimal_nospace :
    forall c d, unicode_decimal c = Some d -> isspace c = false
}.

Section WithUnicode.
Context {U : UnicodeData}.

(** [Py_UNICODE_TODECIMAL] *)
Definition digit_value (c : N) : option N :=
  if c <? 128 then
    if (48 <=? c) && (c <=? 57) then Some (c - 48) else None
  else unicode_decimal c.

Definition is_digit (c : N) : bool :=
  match digit_value c with Some _ => true | None => false end.

Definition simple_char (c : N) : bool :=
  (c <? 128) || ((1024 <=? c) && (c <=? 1119)).

Definition simple_upper (c : N) : N :=
  if (97 <=? c) && (c <=? 122) then c - 32
  else if (1072 <=? c) && (c <=? 1103) then c - 32
  else if (1104 <=? c) && (c <=? 1119) then c - 80
  else c.

Definition simple_lower (c : N) : N :=
  if (65 <=? c) && (c <=? 90) then c + 32
  else if (1040 <=? c) && (c <=? 1071) then c + 32
  else if (1024 <=? c) && (c <=? 1039) then c + 80
  else c.

(** [s.upper()] *)
Definition upper (s : str) : str :=
  if forallb simple_char s then map simple_upper s else unicode_upper s.

(** [s.lower()] *)
Definition lower (s : str) : str :=
  if forallb simple_char s then map simple_lower s else unicode_lower s.

Definition atom_mem (a : catom) (c : N) : bool :=
  match a with
  | ADigit => is_digit c
  | ASpace => isspace c
  | AChr x => c =? x
  end.

Definition cset_mem (k : cset) (c : N) : bool :=
  existsb (fun a => atom_mem a c) k.

Fixpoint rep {R} (k : cset) (lo : nat) (hi : option nat) (pos : nat)
    (s : str) (cont : nat -> str -> option R) {struct s} : option R :=
  let stop := match lo with O => cont pos s | S _ => None end in
  match s with
  | c :: s' =>
      if cset_mem k c && negb (is_zero hi) then
        match rep k (Nat.pred lo) (option_map Nat.pred hi) (S pos) s' cont with
        | Some r => Some r
        | None => stop
        end
      else stop
  | [] => stop
  end.

Fixpoint rmatch {R} (r : regex) (pos : nat) (s : str) (g : groups)
    (cont : nat -> str -> groups -> option R) : option R :=
  match r with
  | Bol => match pos with O => cont pos s g | S _ => None end
  | Eol =>
      (* the end of the text, or just before a final newline *)
      match s with
      | [] => cont pos s g
      | [c] => if c =? 10 then cont pos s g else None
      | _ => None
      end
  | Rep k lo hi => rep k lo hi pos s (fun pos' s' => cont pos' s' g)
  | Grp n r' =>
      rmatch r' pos s g
        (fun pos' s' g' => cont pos' s' ((n, take (pos' - pos) s) :: g'))
  | Opt r' =>
      match rmatch r' pos s g cont with
      | Some x => Some x
      | None => cont pos s g
      end
  | Cat r1 r2 =>
      rmatch r1 pos s g (fun pos' s' g' => rmatch r2 pos' s' g' cont)
  end.

Definition match_at (r : regex) (pos : nat) (s : str) : option match_obj :=
  rmatch r pos s []
    (fun e _ g => Some (MatchObj pos e (take (e - pos) s) g)).

(** [re.match(r, s)] *)
Definition re_match (r : regex) (s : str) : option match_obj :=
  match_at r 0 s.

Fixpoint search_from (r : regex) (pos : nat) (s : str) : option match_obj :=
  match match_at r pos s with
  | Some m => Some m
  | None =>
      match s with
      | [] => None
      | _ :: s' => search_from r (S pos) s'
      end
  end.

(** [re.search(r, s)] *)
Definition re_search (r : regex) (s : str) : option match_obj :=
  search_from r 0 s.

Fixpoint digits_value (acc : N) (s : str) : option N :=
  match s with
  | [] => Some acc
  | c :: s' =>
      match digit_value c with
      | Some d => digits_value (acc * 10 + d) s'
      | None => None
      end
  end.

(** [int(x)] on what a group of [\d] holds: a text of decimal digits.
    [int(None)] is a [TypeError]; a text that is not a run of digits is a
    [ValueError] here (signs, blanks and underscores, which [int] also
    reads, never occur in such a group). *)
Definition py_int (x : option str) : outcome N :=
  match x with
  | None => Raise TypeError
  | Some [] => Raise ValueError
  | Some s =>
      match digits_value 0 s with
      | Some n => Ok n
      | None => Raise ValueError
      end
  end.

(** ** [normalize_time] *)

Definition d12 : regex := Rep [ADigit] 1 (Some 2%nat).          (* \d{1,2} *)
Definition ws : regex := Rep [ASpace] 0 None.               (* \s* *)
Definition chr (c : N) : regex := Rep [AChr c] 1 (Some 1%nat).
Definition colon : N := 58.
Definition period_char : N := 46.
Definition hyphen : N := 45.

(** [^(\d{1,2}):(\d{1,2})(?::\d{1,2})?$] *)
Definition re_hms : regex :=
  Bol +++ Grp 1 d12 +++ chr colon +++ Grp 2 d12
      +++ Opt (chr colon +++ d12) +++ Eol.

(** [^\s*(\d{1,2})\s*[:\.\-\s]\s*(\d{1,2})\s*$] *)
Definition re_sep : regex :=
  Bol +++ ws +++ Grp 1 d12 +++ ws
      +++ Rep [AChr colon; AChr period_char; AChr hyphen; ASpace] 1 (Some 1%nat)
      +++ ws +++ Grp 2 d12 +++ ws +++ Eol.

(** [^\s*(\d{1,2})\s*$] *)
Definition re_hour : regex :=
  Bol +++ ws +++ Grp 1 d12 +++ ws +++ Eol.

Definition hour_ok (h : N) : bool := (0 <=? h) && (h <=? 23).
Definition minute_ok (mm : N) : bool := (0 <=? mm) && (mm <=? 59).

(** Each of the three blocks of [normalize_time]: [Ok (Some (h, mm))] when
    the block returns, [Ok None] when control falls through to the next. *)
Definition try_hms (s : str) : outcome (option (N * N)) :=
  match re_match re_hms s with
  | Some m =>
      h ← py_int (group m 1%nat);
      mm ← py_int (group m 2%nat);
      if hour_ok h && minute_ok mm then Ok (Some (h, mm)) else Ok None
  | None => Ok None
  end.

Definition try_sep (s : str) : outcome (option (N * N)) :=
  match re_search re_sep s with
  | Some m2 =>
      h ← py_int (group m2 1%nat);
      mm ← py_int (group m2 2%nat);
      if hour_ok h && minute_ok mm then Ok (Some (h, mm)) else Ok None
  | None => Ok None
  end.

Definition try_hour (s : str) : outcome (option (N * N)) :=
  match re_match re_hour s with
  | Some m3 =>
      h ← py_int (group m3 1%nat);
      if hour_ok h then Ok (Some (h, 0)) else Ok None
  | None => Ok None
  end.

Definition or_else {A} (x : outcome (option A)) (k : outcome (option A))
    : outcome (option A) :=
  r ← x;
  match r with
  | Some a => Ok (Some a)
  | None => k
  end.

Definition normalize_time (s : str) : outcome (option (N * N)) :=
  let s := strip s in
  or_else (try_hms s) (or_else (try_sep s) (or_else (try_hour s) (Ok None))).

(** [extract_first_digits]: the first run of digits, as a number *)
Definition re_digits : regex := Rep [ADigit] 1 None.         (* \d+ *)

Definition extract_first_digits (s : str) : outcome (option N) :=
  match re_search re_digits s with
  | Some m => n ← py_int (group m 0%nat); Ok (Some n)
  | None => Ok None
  end.

(** ** [parse_row] *)

(** [row[i]] *)
Definition index {St} (row : list str) (i : nat) : M St str :=
  match row !! i with
  | Some c => mret c
  | None => raise IndexError
  end.

Definition parse_row (idx : nat) (row : list str)
    : M (list log_record) (option item) :=
  c0 ← index row 0;
  let status_raw := upper (strip c0) in
  if negb (str_in status_raw truthy) then mret None else
  c1 ← index row 1;
  let message := strip c1 in
  c2 ← index row 2;
  let period := lower (strip c2) in
  c3 ← index row 3;
  let date_raw := strip c3 in
  c4 ← index row 4;
  let weekday_raw := lower (strip c4) in
  c5 ← index row 5;
  let time_raw := strip c5 in
  match message with
  | [] => _ ← warn idx EmptyMessage; mret None
  | _ :: _ =>
      tm ← lift (normalize_time time_raw);
      match tm with
      | None => _ ← warn idx (BadTime time_raw); mret None
      | Some (hour, minute) =>
          if str_eqb period period_daily then
            mret (Some (Daily (row_key idx) message hour minute))
          else if str_eqb period period_weekly then
            match dict_get WEEKDAY_MAP weekday_raw with
            | None => _ ← warn idx (BadWeekday weekday_raw); mret None
            | Some dow =>
                mret (Some (Weekly (row_key idx) message dow hour minute))
            end
          else if str_eqb period period_monthly then
            dom ← lift (extract_first_digits date_raw);
            match dom with
            | Some d =>
                if (1 <=? d) && (d <=? 31) then
                  mret (Some (Monthly (row_key idx) message d hour minute))
                else _ ← warn idx (BadDayOfMonth date_raw); mret None
            | None => _ ← warn idx (BadDayOfMonth date_raw); mret None
            end
          else _ ← warn idx (UnknownPeriod period); mret None
      end
  end.

(** ** [schedule_job] *)

(** the [CronTrigger] of each ["type"]; an item has one of the three, so
    the branch that returns without adding a job is never taken *)
Definition item_trigger (it : item) : trigger :=
  match it with
  | Daily _ _ h m => CronDaily h m
  | Weekly _ _ dow h m => CronWeekly dow h m
  | Monthly _ _ dom h m => CronMonthly dom h m
  end.

Definition schedule_job (it : item) : M world unit :=
  let job_id := item_key it in
  old ← get_job job_id;
  _ ← match old with
      | Some _ => remove_job job_id
      | None => mret tt
      end;
  add_job job_id (Job (item_trigger it) (Send (item_message it))).

(** ** [refresh_schedule] *)

Definition get_sheet (src : source) : M world source :=
  match src with
  | Unavailable Authorize => raise (SourceError Authorize)
  | Unavailable OpenSheet => _ ← log NoAccess; raise (SourceError OpenSheet)
  | Unavailable OpenWorksheet => raise (SourceError OpenWorksheet)
  | _ => mret src
  end.

Definition get_all_values (ws : source) : M world (list (list str)) :=
  match ws with
  | Sheet values => mret values
  | Unavailable st => raise (SourceError st)
  end.

(** [(row + [""] * 6)[:6]] *)
Definition six_cells (row : list str) : list str :=
  take 6 (row ++ replicate 6 []).

(** the loop over [enumerate(values[1:], start=2)] *)
Fixpoint rows_loop (idx : nat) (rows : list (list str))
    (active_keys : gset str) (planned : nat)
    : M world (gset str * nat) :=
  match rows with
  | [] => mret (active_keys, planned)
  | row :: rest =>
      let row := six_cells row in
      item ← logging (parse_row idx row);
      match item with
      | Some it =>
          _ ← schedule_job it;
          rows_loop (S idx) rest ({[item_key it]} ∪ active_keys) (S planned)
      | None => rows_loop (S idx) rest active_keys planned
      end
  end.

Definition stale (active_keys : gset str) (id : str) : bool :=
  startswith row_prefix id && negb (bool_decide (id ∈ active_keys)).

(** the loop over [scheduler.get_jobs()] *)
Fixpoint remove_stale (ids : list str) (active_keys : gset str)
    : M world unit :=
  match ids with
  | [] => mret tt
  | id :: rest =>
      _ ← (if stale active_keys id then remove_job id else mret tt);
      remove_stale rest active_keys
  end.

Definition debug_list_jobs : M world unit :=
  js ← get_jobs;
  match js with
  | [] => log NoJobs
  | _ :: _ => log (JobsListing js.*1)
  end.

Definition refresh_schedule (src : source) : M world unit :=
  ws ← get_sheet src;
  values ← get_all_values ws;
  if (length values <? 2)%nat then log SheetEmpty else
  '(active_keys, planned) ← rows_loop 2 (drop 1 values) ∅ 0%nat;
  js ← get_jobs;
  _ ← remove_stale js.*1 active_keys;
  _ ← log (RefreshDone planned (size active_keys));
  debug_list_jobs.

(** ** The poll wrapper of [main] *)

Definition poll (src : source) : M world unit :=
  try_except (refresh_schedule src) (fun e => log (RefreshFailed e)).


(** ** Notions the statements below use *)

(** What a successful match of [r] does to the position, the remaining
    text and the groups. *)
Fixpoint steps (r : regex) (pos : nat) (s : str) (g : groups)
    (pos' : nat) (s' : str) (g' : groups) : Prop :=
  match r with
  | Bol => pos = 0%nat /\ pos' = pos /\ s' = s /\ g' = g
  | Eol => pos' = pos /\ s' = s /\ g' = g
  | Rep k lo hi =>
      exists t, s = t ++ s' /\ Forall (fun c => cset_mem k c = true) t /\
        (lo <= length t)%nat /\ pos' = (pos + length t)%nat /\ g' = g
  | Grp n r' =>
      exists g0, steps r' pos s g pos' s' g0 /\
        g' = (n, take (pos' - pos) s) :: g0
  | Opt r' => steps r' pos s g pos' s' g' \/ (pos' = pos /\ s' = s /\ g' = g)
  | Cat r1 r2 =>
      exists p1 s1 g1, steps r1 pos s g p1 s1 g1 /\ steps r2 p1 s1 g1 pos' s' g'
  end.

(** a text of one or two decimal digits, and the number it denotes *)
Definition digits12 (s : str) (v : N) : Prop :=
  (1 <= length s <= 2)%nat /\ digits_value 0 s = Some v.

(** nothing, or a colon and a seconds field of one or two digits *)
Definition seconds_tail (t : str) : Prop :=
  t = [] \/ exists ss v, digits12 ss v /\ t = colon :: ss.

(** the separators of the tolerant form: colon, period, hyphen, blank *)
Definition separator (c : N) : Prop :=
  c = colon \/ c = period_char \/ c = hyphen \/ isspace c = true.

(** the job [schedule_job] registers for an item *)
Definition job_of (it : item) : job :=
  Job (item_trigger it) (Send (item_message it)).

Definition upsert (js : gmap str job) (it : item) : gmap str job :=
  <[item_key it := job_of it]> js.

(** the items the parser accepts in one pass over the data rows *)
Fixpoint accepted (idx : nat) (rows : list (list str)) : list item :=
  match rows with
  | [] => []
  | row :: rest =>
      match (parse_row idx (six_cells row) []).1 with
      | Ok (Some it) => it :: accepted (S idx) rest
      | _ => accepted (S idx) rest
      end
  end.

Definition accepted_keys (values : list (list str)) : gset str :=
  list_to_set (item_key <$> accepted 2 (drop 1 values)).

Definition sweep (active_keys : gset str) (js : gmap str job) : gmap str job :=
  filter (fun kv => stale active_keys kv.1 = false) js.

Definition reconcile (values : list (list str)) (js : gmap str job)
    : gmap str job :=
  sweep (accepted_keys values) (foldl upsert js (accepted 2 (drop 1 values))).

(** one step of the loop over [scheduler.get_jobs()] *)
Definition drop_stale (active_keys : gset str) (js : gmap str job) (id : str)
    : gmap str job :=
  if stale active_keys id then delete id js else js.

End WithUnicode.

(** An instance of the tables: ASCII, the Arabic-Indic digits and the
    fullwidth digits; case mapping changes Latin and Cyrillic letters and
    leaves other characters alone. *)
Definition fragment_decimal (c : N) : option N :=
  if (1632 <=? c) && (c <=? 1641) then Some (c - 1632)
  else if (65296 <=? c) && (c <=? 65305) then Some (c - 65296)
  else None.

#[export] Program Instance fragment : UnicodeData := {|
  unicode_decimal := fragment_decimal;
  unicode_upper := map simple_upper;
  unicode_lower := map simple_lower
|}.
Next Obligation.
  intros c d. unfold fragment_decimal.
  cmp_cases; simpl; intros; simplify_eq; lia.
Qed.
Next Obligation.
  intros c d. unfold fragment_decimal.
  cmp_cases; simpl; intros; simplify_eq; unfold isspace; cmp_cases; reflexivity.
Qed.

(** ** Sample rows *)

Definition sample_header : list str :=
  [utf8 "status"; utf8 "message"; utf8 "period"; utf8 "date";
   utf8 "weekday"; utf8 "time"].
Definition sample_daily : list str :=
  [utf8 "TRUE"; utf8 "Standup"; utf8 "день"; []; []; utf8 "09:30"].
Definition sample_weekly : list str :=
  [utf8 "TRUE"; utf8 "Sync"; utf8 "неделя"; []; utf8 "пн"; utf8 "14:00"].
Definition sample_monthly : list str :=
  [utf8 "TRUE"; utf8 "Report"; utf8 "месяц"; utf8 "28."; []; utf8 "10:00"].
Definition sample_inactive : list str :=
  [utf8 "FALSE"; utf8 "x"; utf8 "день"; []; []; utf8 "10:00"].
Definition sample_grid : list (list str) :=
  [sample_header; sample_daily; sample_weekly; sample_monthly].

(** * The rest of [app/reminders.py], and the other modules

    [_parse_chat_id] of [app/reminders.py]; the flags of [app/config.py];
    the modes, the text handler and the AI chat of [app/bot.py]; and
    [summarize] of [app/main.py].  What these call that is not in these
    modules, the language model and the trademark search of
    [app.services.tm], is an argument or a result. *)

Section ChatIds.
Context {U : UnicodeData}.

(** ** [_parse_chat_id] *)

(** what [_parse_chat_id] returns: an [int] or the text itself *)
Inductive chat_id :=
| ChatNumber (n : Z)
| ChatName (s : str).






End ChatIds.

(** ** More notions the statements use *)

Section Shapes.
Context {U : UnicodeData}.

(** what every item [parse_row] builds for row [idx] satisfies *)
Definition item_ok (idx : nat) (it : item) : Prop :=
  item_key it = row_key idx /\
  item_message it <> [] /\
  strip (item_message it) = item_message it /\
  match it with
  | Daily _ _ h m => h <= 23 /\ m <= 59
  | Weekly _ _ dow h m => dow <= 6 /\ h <= 23 /\ m <= 59
  | Monthly _ _ dom h m => 1 <= dom <= 31 /\ h <= 23 /\ m <= 59
  end.

(** the atoms of all the classes of a pattern *)
Fixpoint atoms_of (r : regex) : cset :=
  match r with
  | Bol | Eol => []
  | Rep k _ _ => k
  | Grp _ r' | Opt r' => atoms_of r'
  | Cat r1 r2 => atoms_of r1 ++ atoms_of r2
  end.

(** the pattern ends with [$] *)
Fixpoint ends_with_eol (r : regex) : bool :=
  match r with
  | Eol => true
  | Cat _ r2 => ends_with_eol r2
  | _ => false
  end.

(** a character a time may be written with *)
Definition time_char (c : N) : bool :=
  is_digit c || isspace c || (c =? colon) || (c =? period_char)
  || (c =? hyphen).

End Shapes.

(** ** [app/config.py] *)

(** [os.getenv(k, default)] on an environment *)
Definition getenv (env : gmap str str) (k fallback : str) : str :=
  default fallback (env !! k).

(** [_env] *)
Definition _env (env : gmap str str) (k fallback : str) : str :=
  strip (getenv env k fallback).

(** [a or b] on texts *)
Definition py_or (a b : str) : str :=
  match a with
  | [] => b
  | _ :: _ => a
  end.

Definition TM_ENABLE (env : gmap str str) : bool :=
  str_eqb (py_or (_env env (utf8 "TM_ENABLE") []) (utf8 "1")) (utf8 "1").

Definition TM_DEBUG (env : gmap str str) : bool :=
  str_eqb (py_or (_env env (utf8 "TM_DEBUG") []) (utf8 "0")) (utf8 "1").

(** ** [app/bot.py] *)

Definition MOD_AI : str := Eval cbv in utf8 "ai".
Definition MOD_TM : str := Eval cbv in utf8 "tm".
Definition MOD_SEC : str := Eval cbv in utf8 "secretary".

Definition AI_LABEL : str := Eval cbv in utf8 "🤖 AI-чат".
Definition TM_LABEL : str := Eval cbv in utf8 "🏷️ Товарные знаки".
Definition SECRETARY_LABEL : str := Eval cbv in utf8 "👩‍💼 Секретарь".

(** [get_mode] and [set_mode] on the [user_mode] dictionary *)
Definition get_mode (user_mode : gmap Z str) (uid : Z) : str :=
  default MOD_SEC (user_mode !! uid).

Definition set_mode (user_mode : gmap Z str) (uid : Z) (mode : str)
    : gmap Z str :=
  <[uid := mode]> user_mode.

(** [switch_mode]: the new [user_mode] and the text answered *)
Definition switch_mode (user_mode : gmap Z str) (uid : Z) (label : str)
    : gmap Z str * str :=
  if str_eqb label AI_LABEL then
    (set_mode user_mode uid MOD_AI,
     utf8 "Режим AI-чат активирован. Напиши вопрос.")
  else if str_eqb label TM_LABEL then
    (set_mode user_mode uid MOD_TM,
     utf8 "Режим ТМ активирован. Используй:" ++ [10]
     ++ utf8 "• текстовый запрос" ++ [10] ++ utf8 "• /tm_reg" ++ [10]
     ++ utf8 "• /tm_exp")
  else
    (set_mode user_mode uid MOD_SEC,
     utf8 "Режим Секретарь активирован. Пришли голосовое.").

Section Keywords.
Context {U : UnicodeData}.

(** [re.split(r, s)] for a pattern that matches no empty text: the pieces
    between the matches, from left to right.  Every match is at least one
    character long, so as many rounds as the text has characters, and one
    more, reach its end. *)
Fixpoint re_split_from (rounds : nat) (r : regex) (pos : nat) (s : str)
    : list str :=
  match rounds with
  | O => [s]
  | S rounds' =>
      match search_from r pos s with
      | None => [s]
      | Some m =>
          take (m_start m - pos) s
            :: re_split_from rounds' r (m_end m) (drop (m_end m - pos) s)
      end
  end.

Definition re_split (r : regex) (s : str) : list str :=
  re_split_from (S (length s)) r 0 s.

Definition comma : N := 44.
Definition semicolon : N := 59.

(** [[\s,;]+] *)
Definition re_kw_sep : regex :=
  Rep [ASpace; AChr comma; AChr semicolon] 1 None.

(** [[w for w in re.split(r"[\s,;]+", text) if w]] *)
Definition keywords (text : str) : list str :=
  filter (fun w => w <> []) (re_split re_kw_sep text).

(** a character that separates keywords *)
Definition kw_sep (c : N) : bool :=
  isspace c || (c =? comma) || (c =? semicolon).

End Keywords.

(** what the model call of [ai_chat_reply] comes to: a response with or
    without text, or an exception with its message *)
Inductive gen_reply :=
| GenText (text : option str)
| GenError (message : str).

Abbreviation history := (list (str * str)).

Definition role_user : str := Eval cbv in utf8 "user".
Definition role_assistant : str := Eval cbv in utf8 "assistant".

(** [sep.join(ls)] *)
Fixpoint join (sep : str) (ls : list str) : str :=
  match ls with
  | [] => []
  | [a] => a
  | a :: rest => a ++ sep ++ join sep rest
  end.

(** [l[-n:]] for a positive [n] *)
Definition last_n {A} (n : nat) (l : list A) : list A :=
  drop (length l - n) l.

Definition prompt_line (e : str * str) : str :=
  (if str_eqb e.1 role_user then utf8 "User:" else utf8 "Assistant:")
  ++ [32] ++ e.2.

(** [ai_chat_reply]: the answer and the new [user_chat_history].  [model]
    is [GEMINI_MODEL], absent when no key is configured.  The slice
    [[-20:]] is a list of its own, so appending to it leaves the stored
    history as it is until the assignment at the end. *)
Definition ai_chat_reply (model : option (str -> gen_reply)) (uid : Z)
    (text : str) (h : gmap Z history) : str * gmap Z history :=
  match model with
  | None => (utf8 "AI-чат недоступен: не задан GEMINI_API_KEY.", h)
  | Some generate_content =>
      (* setdefault(uid, []) *)
      let h1 := match h !! uid with
                | Some _ => h
                | None => <[uid := []]> h
                end in
      let hist := last_n 20 (default [] (h1 !! uid)) ++ [(role_user, text)] in
      let prompt := (prompt_line <$> hist) ++ [utf8 "Assistant:"] in
      let ans :=
        match generate_content (join [10] prompt) with
        | GenText t =>
            py_or (strip (default [] t)) (utf8 "Пустой ответ.")
        | GenError e => utf8 "Ошибка AI: " ++ e
        end in
      (ans, <[uid := hist ++ [(role_assistant, ans)]]> h1)
  end.

(** a history of whole exchanges: a user's text, then the answer *)
Fixpoint exchanges (l : history) : Prop :=
  match l with
  | [] => True
  | (r1, _) :: l' =>
      match l' with
      | (r2, _) :: l'' =>
          r1 = role_user /\ r2 = role_assistant /\ exchanges l''
      | [] => False
      end
  end.

Section Handlers.
Context {U : UnicodeData}.

(** what a handler does with a message besides keeping its state: it
    answers with a text, or it starts the trademark search of
    [app.services.tm] with the keywords to match *)
Inductive action :=
| Reply (text : str)
| SearchTM (chat_id : Z) (kws : list str).

(** [on_start]: the new [user_mode] (the greeting is a fixed text) *)
Definition on_start (user_mode : gmap Z str) (uid : Z) : gmap Z str :=
  set_mode user_mode uid MOD_SEC.

(** [handle_text]: what is done and the new [user_chat_history].
    [message_text] is [message.text], [None] when the message has none. *)
Definition handle_text (model : option (str -> gen_reply))
    (user_mode : gmap Z str) (uid chat_id : Z) (message_text : option str)
    (h : gmap Z history) : action * gmap Z history :=
  let mode := get_mode user_mode uid in
  let text := strip (default [] message_text) in
  match text with
  | [] => (Reply (utf8 "Пустое сообщение."), h)
  | _ :: _ =>
      if str_eqb mode MOD_AI then
        let '(reply, h') := ai_chat_reply model uid text h in
        (Reply reply, h')
      else if str_eqb mode MOD_TM then
        (SearchTM chat_id (keywords text), h)
      else
        (Reply (utf8 "В " ++ SECRETARY_LABEL
                ++ utf8 " пришли голосовое сообщение 🎙️"), h)
  end.

End Handlers.

(** ** [app/main.py] *)

(** [s.find(sub)]: where [sub] first occurs in [s] *)
Fixpoint find (sub s : str) : option nat :=
  if startswith sub s then Some 0%nat
  else match s with
       | [] => None
       | _ :: s' => S <$> find sub s'
       end.

(** [sub in s] *)
Definition contains (sub s : str) : bool := bool_decide (is_Some (find sub s)).

(** [s.split(sep, 1)] *)
Definition split_once (sep s : str) : list str :=
  match find sep s with
  | None => [s]
  | Some i => [take i s; drop (i + length sep) s]
  end.

(** [s.replace(old, new)] for a non-empty [old]: the occurrences are taken
    from the left and do not overlap.  Each one is at least a character
    long, so as many rounds as [s] has characters replace them all. *)
Fixpoint replace_from (rounds : nat) (old new s : str) : str :=
  match rounds with
  | O => s
  | S rounds' =>
      match find old s with
      | None => s
      | Some i =>
          take i s ++ new
            ++ replace_from rounds' old new (drop (i + length old) s)
      end
  end.

Definition replace (old new s : str) : str :=
  replace_from (length s) old new s.

Record HTTPException := { status_code : N; detail : str }.

Record SummarizeOut := { summary : str; tech_spec : str }.

(** what [MODEL.generate_content] comes to: a response, whose [text] is
    read without an error or is absent, or one of the exceptions the
    handler tells apart, with its message *)
Inductive gemini :=
| Response (text : option str)
| FailedPrecondition (message : str)
| NotFound (message : str)
| OtherException (message : str).

Definition nl : str := [10].
Definition quote : str := [34].

Definition PROMPT_HEAD : str :=
  nl ++ utf8 "Ты — аналитик голосовых сообщений. " ++ nl
  ++ utf8 "На вход тебе дан текст транскрипции речи." ++ nl ++ nl
  ++ utf8 "Твоя задача — определить, есть ли в сообщении признаки события, особенно встречи, " ++ nl
  ++ utf8 "и структурировать информацию по шаблону ниже." ++ nl ++ nl
  ++ utf8 "---" ++ nl ++ utf8 "Текст речи:" ++ nl.

Definition PROMPT_TAIL : str :=
  nl ++ utf8 "---" ++ nl ++ nl ++ utf8 "Формат ответа:" ++ nl
  ++ utf8 "### Событие" ++ nl
  ++ utf8 "- Тип: встреча / звонок / обсуждение / задача / информация" ++ nl
  ++ utf8 "- Тема: <основная тема разговора или встречи>" ++ nl
  ++ utf8 "- Дата и время: <укажи дату и время, если не сказано явно — используй текущую дату>" ++ nl
  ++ utf8 "- Участники: <перечисли имена или роли, если названы; если нет — укажи "
  ++ quote ++ utf8 "не указаны" ++ quote ++ utf8 ">" ++ nl
  ++ utf8 "- Ссылка на видеовстречу: https://telemost.yandex.ru/j/85575513867434" ++ nl
  ++ utf8 "### Саммари" ++ nl
  ++ utf8 "- <5–7 пунктов с ключевыми идеями речи>" ++ nl ++ nl
  ++ utf8 "Ответ должен быть аккуратным, структурированным, без пояснений вне секций."
  ++ nl.

(** [PROMPT_TMPL.format(transcript=transcript)] *)
Definition PROMPT_TMPL_format (transcript : str) : str :=
  PROMPT_HEAD ++ transcript ++ PROMPT_TAIL.

Definition spec_heading : str := Eval cbv in utf8 "### ТЗ".
Definition summary_heading : str := Eval cbv in utf8 "### Саммари".

(** [summarize]: the body answered, or the [HTTPException] raised.  Where
    [parts] is indexed the heading occurs, so there are two parts. *)
Definition summarize (generate_content : str -> gemini) (transcript : str)
    : HTTPException + SummarizeOut :=
  let transcript := strip transcript in
  match transcript with
  | [] => inl {| status_code := 400; detail := utf8 "transcript is empty" |}
  | _ :: _ =>
      let prompt := PROMPT_TMPL_format transcript in
      match generate_content prompt with
      | FailedPrecondition e =>
          inl {| status_code := 503;
                 detail := utf8 "Gemini region blocked: " ++ e |}
      | NotFound e =>
          inl {| status_code := 502;
                 detail := utf8 "Gemini model not found: " ++ e |}
      | OtherException e =>
          inl {| status_code := 502; detail := utf8 "Gemini error: " ++ e |}
      | Response t =>
          let text := strip (default [] t) in
          if contains spec_heading text then
            let parts := split_once spec_heading text in
            inr {| summary := strip (replace summary_heading [] (parts !!! 0%nat));
                   tech_spec := strip (parts !!! 1%nat) |}
          else inr {| summary := text; tech_spec := [] |}
      end
  end.

(** ** More sample data *)

Definition sample_padded : list str :=
  [utf8 " да "; utf8 " Standup "; utf8 "ДЕНЬ"; utf8 "x"; utf8 "y";
   utf8 " 9.30 "].
Definition sample_no_message : list str :=
  [utf8 "1"; utf8 "  "; utf8 "день"; []; []; utf8 "10:00"].
Definition sample_bad_time : list str :=
  [utf8 "TRUE"; utf8 "Lunch"; utf8 "день"; []; []; utf8 "25:00"].
Definition sample_poll_job : job := Job (Interval 60) Poll.
Definition sample_old_job : job := Job (CronDaily 8 0) (Send (utf8 "Old")).
Definition sample_poll_world : world :=
  World {[ utf8 "sheet-poll" := sample_poll_job ]} [].
Definition sample_world : world :=
  World (<[ utf8 "row-7" := sample_old_job ]> (jobs sample_poll_world)) [].
Definition sample_history : gmap Z history :=
  {[ 7%Z := [(role_user, utf8 "a"); (role_assistant, utf8 "b")] ]}.
Definition sample_model (prompt : str) : gen_reply :=
  GenText (Some (utf8 " ok ")).
Definition sample_gemini (prompt : str) : gemini :=
  Response (Some (utf8 "### Саммари" ++ nl ++ utf8 "- a" ++ nl
                  ++ utf8 "### ТЗ" ++ nl ++ utf8 "- b" ++ nl)).
Definition sample_out : SummarizeOut :=
  {| summary := utf8 "- a"; tech_spec := utf8 "- b" |}.

(** * Properties *)

(** ** Characters and trimming *)

Section Characters.
Context {U : UnicodeData}.

Lemma digit_value_lt c d : digit_value c = Some d -> d < 10.
Proof.
  unfold digit_value. destruct (N.ltb_spec c 128).
  - destruct (N.leb_spec 48 c), (N.leb_spec c 57); simpl; intros;
      simplify_eq; lia.
  - apply unicode_decimal_lt.
Qed.

Lemma digit_value_nospace c d : digit_value c = Some d -> isspace c = false.
Proof.
  unfold digit_value. destruct (N.ltb_spec c 128).
  - destruct (N.leb_spec 48 c), (N.leb_spec c 57); simpl; intros;
      simplify_eq.
    unfold isspace. cmp_cases; reflexivity.
  - apply unicode_decimal_nospace.
Qed.

Lemma digit_value_ascii c d :
  digit_value c = Some d -> c < 128 -> 48 <= c <= 57.
Proof.
  unfold digit_value. intros H Hc. destruct (N.ltb_spec c 128); [|lia].
  destruct (N.leb_spec 48 c), (N.leb_spec c 57); simpl in H;
    simplify_eq; lia.
Qed.

Lemma digit_value_neq c d x :
  digit_value c = Some d -> x < 48 \/ 57 < x < 128 -> (c =? x) = false.
Proof.
  intros H Hx. destruct (N.eqb_spec c x) as [->|]; [|done].
  apply digit_value_ascii in H; lia.
Qed.

Lemma is_digit_true c d : digit_value c = Some d -> is_digit c = true.
Proof. unfold is_digit. by intros ->. Qed.

Lemma is_digit_Some c : is_digit c = true -> exists d, digit_value c = Some d.
Proof. unfold is_digit. destruct (digit_value c); [eauto|done]. Qed.

Lemma is_digit_const c : c < 48 \/ 57 < c < 128 -> is_digit c = false.
Proof.
  intros H. unfold is_digit, digit_value.
  destruct (N.ltb_spec c 128); [|lia].
  destruct (N.leb_spec 48 c), (N.leb_spec c 57); simpl; try done; lia.
Qed.

Lemma isspace_not_digit c : isspace c = true -> is_digit c = false.
Proof.
  intros Hs. destruct (is_digit c) eqn:Hd; [|done].
  apply is_digit_Some in Hd as [d Hd].
  apply digit_value_nospace in Hd. congruence.
Qed.

Lemma lstrip_id s a : head s = Some a -> isspace a = false -> lstrip s = s.
Proof. destruct s; simpl; intros ? Ha; simplify_eq. by rewrite Ha. Qed.

Lemma strip_id s a z :
  head s = Some a -> last s = Some z ->
  isspace a = false -> isspace z = false -> strip s = s.
Proof.
  intros Hh Hl Ha Hz. unfold strip, rstrip.
  rewrite (lstrip_id s a) by done.
  rewrite (lstrip_id (rev s) z), rev_involutive; try done.
  apply last_Some in Hl as [l' ->]. by rewrite rev_app_distr.
Qed.

Lemma strip_blank s : forallb isspace s = true -> strip s = [].
Proof.
  intros H. unfold strip.
  assert (lstrip s = []) as ->; [|done].
  induction s as [|c s IH]; simpl in *; [done|].
  apply andb_true_iff in H as [-> ?]. auto.
Qed.

Lemma str_eqb_eq a b : str_eqb a b = true <-> a = b.
Proof.
  revert b. induction a as [|x a IH]; intros [|y b]; simpl; try done.
  rewrite andb_true_iff, N.eqb_eq, IH. split; [by intros [-> ->]|].
  intros; by simplify_eq.
Qed.

Lemma str_in_elem s l : str_in s l = true <-> s ∈ l.
Proof.
  unfold str_in. rewrite existsb_exists. split.
  - intros (x & Hx & ->%str_eqb_eq). by apply list_elem_of_In.
  - intros Hs. exists s. split; [by apply list_elem_of_In|by apply str_eqb_eq].
Qed.

End Characters.

(** ** The matcher, one step at a time *)

Section Matcher.
Context {U : UnicodeData}.

Lemma rep_cons {R} k lo hi pos c s (cont : nat -> str -> option R) :
  rep k lo hi pos (c :: s) cont =
  if cset_mem k c && negb (is_zero hi) then
    match rep k (Nat.pred lo) (option_map Nat.pred hi) (S pos) s cont with
    | Some r => Some r
    | None => match lo with O => cont pos (c :: s) | S _ => None end
    end
  else match lo with O => cont pos (c :: s) | S _ => None end.
Proof. reflexivity. Qed.

Lemma rep_nil {R} k lo hi pos (cont : nat -> str -> option R) :
  rep k lo hi pos [] cont = match lo with O => cont pos [] | S _ => None end.
Proof. reflexivity. Qed.

(** A pattern that starts with [^] matches at the start or nowhere. *)
Lemma search_anchored r s : re_search (Bol +++ r) s = re_match (Bol +++ r) s.
Proof.
  unfold re_search, re_match.
  assert (forall t p, search_from (Bol +++ r) (S p) t = None) as Hn.
  { induction t as [|c t IH]; intros p; simpl; [done|]. apply IH. }
  destruct s as [|c s]; simpl; [by destruct (match_at _ _ _)|].
  rewrite Hn. by destruct (match_at _ _ _).
Qed.

End Matcher.

Ltac digit_facts H :=
  pose proof (digit_value_lt _ _ H);
  pose proof (digit_value_nospace _ _ H);
  pose proof (is_digit_true _ _ H);
  pose proof (digit_value_neq _ _ 58 H ltac:(lia));
  pose proof (digit_value_neq _ _ 46 H ltac:(lia));
  pose proof (digit_value_neq _ _ 45 H ltac:(lia));
  pose proof (digit_value_neq _ _ 10 H ltac:(lia)).

Ltac use_facts :=
  repeat match goal with
  | H : isspace _ = _ |- _ => rewrite !H
  | H : is_digit _ = _ |- _ => rewrite !H
  | H : digit_value _ = _ |- _ => rewrite !H
  | H : N.eqb _ _ = _ |- _ => rewrite !H
  end.

Ltac red_step :=
  cbn [rmatch cset_mem existsb atom_mem andb orb negb is_zero Nat.pred
       option_map mbind outcome_bind mret outcome_ret or_else group assoc
       Nat.eqb m_text m_groups take Nat.sub py_int digits_value].

Ltac run :=
  red_step;
  repeat (progress (try rewrite rep_cons; try rewrite rep_nil; red_step;
                    use_facts; red_step)).

(** facts about the separator characters *)
Ltac sep_facts :=
  pose proof (is_digit_const 58 ltac:(lia));
  pose proof (is_digit_const 46 ltac:(lia));
  pose proof (is_digit_const 45 ltac:(lia));
  assert (isspace 58 = false) by reflexivity;
  assert (isspace 46 = false) by reflexivity;
  assert (isspace 45 = false) by reflexivity;
  assert ((58 =? 58) = true) by reflexivity;
  assert ((58 =? 46) = false) by reflexivity;
  assert ((58 =? 45) = false) by reflexivity;
  assert ((46 =? 58) = false) by reflexivity;
  assert ((46 =? 46) = true) by reflexivity;
  assert ((46 =? 45) = false) by reflexivity;
  assert ((45 =? 58) = false) by reflexivity;
  assert ((45 =? 46) = false) by reflexivity;
  assert ((45 =? 45) = true) by reflexivity.

Ltac unfold_time :=
  unfold normalize_time, try_hms, try_sep, try_hour, re_sep;
  rewrite ?search_anchored;
  unfold re_match, match_at, re_hms, re_hour, d12, ws, chr, colon,
    hyphen, period_char.

(** ** The matcher is sound, and the parsers raise nothing *)

Section Sound.
Context {U : UnicodeData}.

Lemma rep_sound {R} k lo hi pos s (cont : nat -> str -> option R) m :
  rep k lo hi pos s cont = Some m ->
  exists t s', s = t ++ s' /\ Forall (fun c => cset_mem k c = true) t /\
    (lo <= length t)%nat /\ cont (pos + length t)%nat s' = Some m.
Proof.
  revert lo hi pos. induction s as [|c s IH]; intros lo hi pos H.
  - rewrite rep_nil in H. destruct lo; [|done].
    exists [], []. rewrite Nat.add_0_r. done.
  - rewrite rep_cons in H.
    assert (match lo with O => cont pos (c :: s) | S _ => None end = Some m ->
      exists t s', c :: s = t ++ s' /\ Forall (fun c => cset_mem k c = true) t /\
        (lo <= length t)%nat /\ cont (pos + length t)%nat s' = Some m) as Hstop.
    { destruct lo; [|done]. intros Hc. exists [], (c :: s).
      rewrite Nat.add_0_r. done. }
    destruct (cset_mem k c && negb (is_zero hi)) eqn:Hk; [|auto].
    destruct (rep k (Nat.pred lo) _ (S pos) s cont) as [m'|] eqn:Hr; [|auto].
    simplify_eq. apply IH in Hr as (t & s' & -> & Ht & Hlo & Hc).
    apply andb_true_iff in Hk as [Hk _].
    exists (c :: t), s'. simpl. repeat split; [by constructor|lia|].
    by rewrite Nat.add_succ_r.
Qed.

Lemma rmatch_sound {R} r pos s g (cont : nat -> str -> groups -> option R) m :
  rmatch r pos s g cont = Some m ->
  exists pos' s' g', steps r pos s g pos' s' g' /\ cont pos' s' g' = Some m.
Proof.
  revert pos s g cont. induction r as [| |k lo hi|n r IH|r IH|r1 IH1 r2 IH2];
    intros pos s g cont H; simpl in H.
  - destruct pos; [|done]. by exists 0%nat, s, g.
  - exists pos, s, g. split; [done|].
    destruct s as [|c [|]]; try done. by destruct (c =? 10).
  - apply rep_sound in H as (t & s' & -> & Ht & Hlo & Hc).
    exists (pos + length t)%nat, s', g. split; [|done]. by exists t.
  - apply IH in H as (pos' & s' & g' & Hs & Hc).
    eexists pos', s', _. split; [|exact Hc]. by exists g'.
  - destruct (rmatch r pos s g cont) as [m'|] eqn:Hr.
    + simplify_eq. apply IH in Hr as (pos' & s' & g' & Hs & Hc).
      exists pos', s', g'. split; [by left|done].
    + exists pos, s, g. split; [by right|done].
  - apply IH1 in H as (p1 & s1 & g1 & Hs1 & H).
    apply IH2 in H as (pos' & s' & g' & Hs2 & Hc).
    exists pos', s', g'. split; [|done]. by exists p1, s1, g1.
Qed.

Lemma search_from_sound r pos s m :
  search_from r pos s = Some m -> exists pos' s', match_at r pos' s' = Some m.
Proof.
  revert pos. induction s as [|c s IH]; intros pos H; simpl in H.
  - destruct (match_at r pos []) eqn:E; [|done]. simplify_eq. eauto.
  - destruct (match_at r pos (c :: s)) eqn:E; [simplify_eq; eauto|].
    by apply IH in H.
Qed.

(** a non-empty run of digits is a number *)
Lemma digits_value_Some t acc :
  Forall (fun c => cset_mem [ADigit] c = true) t ->
  exists n, digits_value acc t = Some n.
Proof.
  intros Ht. revert acc. induction Ht as [|c t Hc _ IH]; intros acc; simpl; [eauto|].
  simpl in Hc. rewrite orb_false_r in Hc.
  apply is_digit_Some in Hc as [d ->]. apply IH.
Qed.

Lemma py_int_digits t :
  Forall (fun c => cset_mem [ADigit] c = true) t -> (1 <= length t)%nat ->
  exists n, py_int (Some t) = Ok n.
Proof.
  intros Ht Hl. destruct (digits_value_Some t 0 Ht) as [n Hn].
  unfold py_int. rewrite Hn. destruct t; [simpl in Hl; lia|eauto].
Qed.

Lemma take_app_length' (t s' : str) pos :
  take (pos + length t - pos) (t ++ s') = t.
Proof.
  replace (pos + length t - pos)%nat with (length t) by lia.
  apply take_app_length.
Qed.

Ltac break_steps :=
  repeat match goal with
  | H : exists _, _ |- _ => destruct H
  | H : _ /\ _ |- _ => destruct H
  | H : _ \/ _ |- _ => destruct H
  end; subst.

Ltac int_groups :=
  cbn [group assoc m_groups m_text Nat.eqb];
  rewrite ?take_app_length';
  repeat match goal with
  | Ht : Forall _ ?t, Hl : (1 <= length ?t)%nat |- context [py_int (Some ?t)] =>
      let n := fresh "n" in let Hn := fresh "Hn" in
      destruct (py_int_digits t Ht Hl) as [n Hn]; rewrite Hn;
      cbn [mbind outcome_bind]
  end.

Lemma try_hms_total s : exists r, try_hms s = Ok r.
Proof.
  unfold try_hms. destruct (re_match re_hms s) as [m|] eqn:Hm; [|eauto].
  apply rmatch_sound in Hm as (pos' & s' & g' & Hs & Hc). simplify_eq.
  unfold re_hms, d12, chr in Hs. cbn [steps] in Hs. break_steps; int_groups;
    destruct (hour_ok _ && minute_ok _); eauto.
Qed.

Lemma try_sep_total s : exists r, try_sep s = Ok r.
Proof.
  unfold try_sep, re_sep. rewrite search_anchored.
  destruct (re_match _ s) as [m|] eqn:Hm; [|eauto].
  apply rmatch_sound in Hm as (pos' & s' & g' & Hs & Hc). simplify_eq.
  unfold d12, ws in Hs. cbn [steps] in Hs. break_steps; int_groups;
    destruct (hour_ok _ && minute_ok _); eauto.
Qed.

Lemma try_hour_total s : exists r, try_hour s = Ok r.
Proof.
  unfold try_hour. destruct (re_match re_hour s) as [m|] eqn:Hm; [|eauto].
  apply rmatch_sound in Hm as (pos' & s' & g' & Hs & Hc). simplify_eq.
  unfold re_hour, d12, ws in Hs. cbn [steps] in Hs. break_steps; int_groups;
    destruct (hour_ok _); eauto.
Qed.

(** [normalize_time] raises on no text, and what it returns is a time of
    day. *)
Lemma normalize_time_total s : exists r, normalize_time s = Ok r.
Proof.
  unfold normalize_time, or_else.
  destruct (try_hms_total (strip s)) as [[?|] ->]; cbn [mbind outcome_bind]; [eauto|].
  destruct (try_sep_total (strip s)) as [[?|] ->]; cbn [mbind outcome_bind]; [eauto|].
  destruct (try_hour_total (strip s)) as [[?|] ->]; cbn [mbind outcome_bind]; eauto.
Qed.

Lemma extract_first_digits_total s : exists r, extract_first_digits s = Ok r.
Proof.
  unfold extract_first_digits, re_search.
  destruct (search_from re_digits 0 s) as [m|] eqn:Hm; [|eauto].
  apply search_from_sound in Hm as (p & s0 & Hm).
  apply rmatch_sound in Hm as (pos' & s' & g' & Hs & Hc). simplify_eq.
  unfold re_digits in Hs. cbn [steps] in Hs. break_steps; int_groups. eauto.
Qed.

End Sound.

(** ** [normalize_time] on the documented forms *)

Section Times.
Context {U : UnicodeData}.

Lemma digits12_inv s v :
  digits12 s v ->
  (exists a, s = [a] /\ digit_value a = Some v) \/
  (exists a b va vb, s = [a; b] /\ digit_value a = Some va /\
     digit_value b = Some vb /\ v = va * 10 + vb).
Proof.
  intros [Hl Hv]. destruct s as [|a [|b [|? ?]]]; simpl in Hl; try lia.
  - left. exists a. split; [done|]. simpl in Hv.
    destruct (digit_value a); by simplify_eq.
  - right. simpl in Hv.
    destruct (digit_value a) as [va|] eqn:Ha; [|done].
    destruct (digit_value b) as [vb|] eqn:Hb; [|done].
    exists a, b, va, vb. by simplify_eq.
Qed.

Ltac inv_digits H :=
  apply digits12_inv in H as
    [(? & -> & ?Hd) | (? & ? & ? & ? & -> & ?Hd & ?Hd & ->)].

(** The three blocks on a text [HH:MM] or [HH:MM:SS]: trimming leaves it
    alone, the first block decides by the ranges, and the other two find
    nothing when the first has refused. *)
Lemma blocks_hms hh mm t h m :
  digits12 hh h -> digits12 mm m -> seconds_tail t ->
  strip (hh ++ colon :: mm ++ t) = hh ++ colon :: mm ++ t /\
  try_hms (hh ++ colon :: mm ++ t) =
    (if hour_ok h && minute_ok m then Ok (Some (h, m)) else Ok None) /\
  (hour_ok h && minute_ok m = false ->
   try_sep (hh ++ colon :: mm ++ t) = Ok None /\
   try_hour (hh ++ colon :: mm ++ t) = Ok None).
Proof.
  intros Hh Hm [->|(ss & v & Hs & ->)]; [|inv_digits Hs];
    inv_digits Hh; inv_digits Hm;
    repeat match goal with H : digit_value _ = Some _ |- _ =>
      digit_facts H; revert H end; intros; sep_facts;
    unfold colon; cbn [app];
    (split; [erewrite strip_id; [|reflexivity|reflexivity|done|done]; done|]);
    (split; [|intros Hno; split]); unfold_time; run;
    rewrite ?N.mul_0_l, ?N.add_0_l, ?Hno; reflexivity.
Qed.

Lemma normalize_time_hms hh mm t h m :
  digits12 hh h -> digits12 mm m -> seconds_tail t ->
  normalize_time (hh ++ colon :: mm ++ t) =
  if hour_ok h && minute_ok m then Ok (Some (h, m)) else Ok None.
Proof.
  intros Hh Hm Ht.
  destruct (blocks_hms hh mm t h m Hh Hm Ht) as (Hs & H1 & H23).
  unfold normalize_time. rewrite Hs, H1.
  destruct (hour_ok h && minute_ok m); [done|].
  destruct H23 as [-> ->]; done.
Qed.

Lemma normalize_time_sep hh mm c h m :
  digits12 hh h -> digits12 mm m -> separator c ->
  normalize_time (hh ++ c :: mm) =
  if hour_ok h && minute_ok m then Ok (Some (h, m)) else Ok None.
Proof.
  intros Hh Hm [->|Hc].
  { rewrite <- (app_nil_r mm). apply normalize_time_hms; [done..|by left]. }
  assert (c = 46 \/ c = 45 \/
          (isspace c = true /\ is_digit c = false /\ (c =? 58) = false /\
           (c =? 46) = false /\ (c =? 45) = false)) as Hcs.
  { destruct Hc as [->|[->|Hc]]; [by left|by right; left|right; right].
    split; [done|]. split; [by apply isspace_not_digit|].
    repeat split; match goal with |- (c =? ?x) = false =>
      destruct (N.eqb_spec c x) as [->|]; done end. }
  clear Hc.
  inv_digits Hh; inv_digits Hm;
    repeat match goal with H : digit_value _ = Some _ |- _ =>
      digit_facts H; revert H end; intros; sep_facts;
    cbn [app]; unfold normalize_time;
    (erewrite strip_id; [|reflexivity|reflexivity|done|done]);
    unfold_time;
    (destruct Hcs as [->|[->|(? & ? & ? & ? & ?)]]); run;
    (destruct (hour_ok _ && minute_ok _); [reflexivity|]); run; reflexivity.
Qed.

Lemma normalize_time_hour hh h :
  digits12 hh h ->
  normalize_time hh = if hour_ok h then Ok (Some (h, 0)) else Ok None.
Proof.
  intros Hh. inv_digits Hh;
    repeat match goal with H : digit_value _ = Some _ |- _ =>
      digit_facts H; revert H end; intros; sep_facts;
    unfold normalize_time;
    (erewrite strip_id; [|reflexivity|reflexivity|done|done]);
    unfold_time; run; (destruct (hour_ok _); reflexivity).
Qed.

Lemma normalize_time_blank s :
  forallb isspace s = true -> normalize_time s = Ok None.
Proof.
  intros H. unfold normalize_time. rewrite (strip_blank s H). reflexivity.
Qed.

End Times.

(** ** Rows and the registry *)

Ltac parse_step :=
  unfold mbind, M_bind, mret, M_ret, index, lift, warn;
  cbn -[upper lower strip normalize_time extract_first_digits str_in
        str_eqb dict_get WEEKDAY_MAP row_key truthy N.leb].

Section Rows.
Context {U : UnicodeData}.

Lemma six_cells_length row : length (six_cells row) = 6%nat.
Proof.
  unfold six_cells. rewrite length_take, length_app, length_replicate. lia.
Qed.

Lemma length_six (row : list str) :
  length row = 6%nat ->
  exists c0 c1 c2 c3 c4 c5, row = [c0; c1; c2; c3; c4; c5].
Proof.
  destruct row as [|c0 [|c1 [|c2 [|c3 [|c4 [|c5 [|]]]]]]]; try done.
  intros _. by exists c0, c1, c2, c3, c4, c5.
Qed.

(** On a row of six cells [parse_row] raises nothing: it returns an item
    whose key is that of the row's index, writing nothing to the log, or it
    returns [None], writing at most the warnings [ws]. *)
Lemma parse_row_spec idx (row : list str) :
  length row = 6%nat ->
  exists r ws,
    (forall l, parse_row idx row l = (Ok r, l ++ ws)) /\
    (forall it, r = Some it -> item_key it = row_key idx /\ ws = []).
Proof.
  intros (c0 & c1 & c2 & c3 & c4 & c5 & ->)%length_six.
  unfold parse_row, index. parse_step.
  destruct (str_in (upper (strip c0)) truthy); parse_step;
    [|exists None, []; split; [intros; by rewrite app_nil_r|done]].
  destruct (strip c1) as [|m0 msg]; parse_step;
    [eexists None, _; split; [done|done]|].
  destruct (normalize_time_total (strip c5)) as [[[h m]|] ->]; parse_step;
    [|eexists None, _; split; [done|done]].
  destruct (str_eqb (lower (strip c2)) period_daily); parse_step.
  { eexists (Some _), []; split; [intros; by rewrite app_nil_r|].
    by intros it [= <-]. }
  destruct (str_eqb (lower (strip c2)) period_weekly); parse_step.
  { destruct (dict_get WEEKDAY_MAP _); parse_step;
      [|eexists None, _; split; [done|done]].
    eexists (Some _), []; split; [intros; by rewrite app_nil_r|].
    by intros it [= <-]. }
  destruct (str_eqb (lower (strip c2)) period_monthly); parse_step;
    [|eexists None, _; split; [done|done]].
  destruct (extract_first_digits_total (strip c3)) as [[d|] ->]; parse_step;
    [|eexists None, _; split; [done|done]].
  destruct ((1 <=? d) && (d <=? 31)); parse_step;
    [|eexists None, _; split; [done|done]].
  eexists (Some _), []; split; [intros; by rewrite app_nil_r|].
  by intros it [= <-].
Qed.


Lemma parse_row_fst idx (row : list str) l :
  length row = 6%nat -> (parse_row idx row l).1 = (parse_row idx row []).1.
Proof.
  intros (r & ws & Hrun & _)%(parse_row_spec idx). by rewrite !Hrun.
Qed.

Lemma schedule_job_run it w :
  schedule_job it w = (Ok tt, World (upsert (jobs w) it) (logs w)).
Proof.
  unfold schedule_job, get_job, remove_job, add_job, upsert, job_of,
    mbind, M_bind, mret, M_ret.
  destruct (jobs w !! item_key it); simpl; [|done].
  by rewrite insert_delete_eq.
Qed.

Lemma rows_loop_run rows : forall idx active planned w,
  exists l',
    rows_loop idx rows active planned w =
    (Ok (list_to_set (item_key <$> accepted idx rows) ∪ active,
         (planned + length (accepted idx rows))%nat),
     World (foldl upsert (jobs w) (accepted idx rows)) l').
Proof.
  induction rows as [|row rows IH]; intros idx active planned w.
  - exists (logs w). cbn [rows_loop accepted fmap list_fmap list_to_set length foldl].
    rewrite Nat.add_0_r, (left_id_L ∅ (∪)). by destruct w.
  - cbn [rows_loop accepted].
    destruct (parse_row_spec idx (six_cells row) (six_cells_length row))
      as (r & ws & Hrun & _).
    unfold mbind, M_bind at 1. unfold logging. rewrite !Hrun. cbn [fst].
    destruct r as [it|].
    + unfold mbind, M_bind. rewrite schedule_job_run. cbn [jobs logs].
      destruct (IH (S idx) ({[item_key it]} ∪ active) (S planned)
                  (World (upsert (jobs w) it) (logs w ++ ws))) as [l' ->].
      exists l'. cbn [accepted fmap list_fmap list_to_set length foldl].
      rewrite Nat.add_succ_r. cbn [jobs].
      by rewrite (assoc_L (∪)), (comm_L (∪) _ {[item_key it]}).
    + destruct (IH (S idx) active planned (World (jobs w) (logs w ++ ws)))
        as [l' ->]. by exists l'.
Qed.

Lemma remove_stale_run (ids : list str) (active : gset str) : forall w,
  remove_stale ids active w =
  (Ok tt, World (foldl (drop_stale active) (jobs w) ids) (logs w)).
Proof.
  induction ids as [|id ids IH]; intros w; [by destruct w|].
  cbn [remove_stale foldl]. unfold mbind, M_bind, drop_stale at 2.
  destruct (stale active id); cbn; by rewrite IH.
Qed.

Lemma foldl_drop_stale_lookup (active : gset str) (ids : list str) :
  forall (js : gmap str job) (k : str),
  foldl (drop_stale active) js ids !! k =
  if stale active k && bool_decide (k ∈ ids) then None else js !! k.
Proof.
  induction ids as [|id ids IH]; intros js k; cbn [foldl].
  - rewrite andb_false_r. done.
  - rewrite IH. unfold drop_stale.
    destruct (stale active k) eqn:Hk; cbn [andb]; [|
      destruct (stale active id) eqn:Hid; [|done];
      rewrite lookup_delete_ne; [done|intros ->; congruence] ].
    destruct (decide (k ∈ ids)) as [Hin|Hin].
    + rewrite !bool_decide_eq_true_2; [done|by right|done].
    + rewrite (bool_decide_eq_false_2 (k ∈ ids)) by done.
      destruct (decide (k = id)) as [->|Hne].
      * rewrite bool_decide_eq_true_2 by left. rewrite Hk.
        by rewrite lookup_delete_eq.
      * rewrite bool_decide_eq_false_2 by (by intros [?|?]%elem_of_cons).
        destruct (stale active id); [by rewrite lookup_delete_ne|done].
Qed.

Lemma sweep_run (active : gset str) (js : gmap str job) :
  foldl (drop_stale active) js (map_to_list js).*1 = sweep active js.
Proof.
  apply map_eq. intros k. rewrite foldl_drop_stale_lookup. unfold sweep.
  destruct (js !! k) as [j|] eqn:Hj.
  - rewrite bool_decide_eq_true_2.
    2:{ apply list_elem_of_fmap. exists (k, j). split; [done|].
        by apply elem_of_map_to_list. }
    rewrite andb_true_r. destruct (stale active k) eqn:Hk.
    + symmetry. apply map_lookup_filter_None. right. intros j' _. simpl. congruence.
    + symmetry. apply map_lookup_filter_Some. done.
  - destruct (_ && _); symmetry; apply map_lookup_filter_None; by left.
Qed.

Lemma refresh_schedule_run values w :
  (2 <= length values)%nat ->
  exists l',
    refresh_schedule (Sheet values) w =
    (Ok tt, World (reconcile values (jobs w)) l').
Proof.
  intros Hlen. unfold refresh_schedule, get_sheet, get_all_values.
  unfold mbind at 1 2, M_bind at 1 2, mret, M_ret.
  destruct (Nat.ltb_spec (length values) 2) as [|_]; [lia|].
  unfold mbind at 1, M_bind at 1.
  destruct (rows_loop_run (drop 1 values) 2 ∅ 0%nat w) as [l1 ->].
  unfold mbind, M_bind, get_jobs. rewrite remove_stale_run. cbn [jobs logs].
  rewrite sweep_run. unfold log, debug_list_jobs, get_jobs, mbind, M_bind. cbn [jobs logs].
  unfold reconcile, accepted_keys. rewrite (right_id_L ∅ (∪)).
  destruct (map_to_list _); cbn; eauto.
Qed.

Lemma refresh_schedule_short values w :
  (length values < 2)%nat ->
  refresh_schedule (Sheet values) w =
  (Ok tt, World (jobs w) (logs w ++ [SheetEmpty])).
Proof.
  intros Hlen. unfold refresh_schedule, get_sheet, get_all_values.
  unfold mbind, M_bind, mret, M_ret.
  destruct (Nat.ltb_spec (length values) 2) as [_|]; [done|lia].
Qed.

Lemma refresh_schedule_unavailable st w :
  exists l',
    refresh_schedule (Unavailable st) w =
    (Raise (SourceError st), World (jobs w) l').
Proof.
  unfold refresh_schedule, get_sheet, get_all_values, log, raise,
    mbind, M_bind, mret, M_ret.
  destruct st; destruct w; cbn; eauto.
Qed.


(** *** Keys *)

Lemma startswith_app p x : startswith p (p ++ x) = true.
Proof. induction p as [|a p IH]; simpl; [done|]. by rewrite N.eqb_refl. Qed.

Lemma row_key_prefix idx : startswith row_prefix (row_key idx) = true.
Proof. apply startswith_app. Qed.

Lemma map_N_of_ascii_inj (a b : list ascii) :
  map N_of_ascii a = map N_of_ascii b -> a = b.
Proof.
  revert b. induction a as [|x a IH]; intros [|y b] H; simpl in H; try done.
  injection H as Hxy Hab. f_equal; [|by apply IH].
  by rewrite <- (ascii_N_embedding x), Hxy, ascii_N_embedding.
Qed.

Lemma py_str_inj i j : py_str i = py_str j -> i = j.
Proof.
  unfold py_str. intros H%map_N_of_ascii_inj.
  apply (f_equal string_of_list_ascii) in H.
  rewrite !string_of_list_ascii_of_string in H.
  by apply (inj pretty) in H.
Qed.

Lemma row_key_inj i j : row_key i = row_key j -> i = j.
Proof. unfold row_key. intros H%app_inv_head. by apply py_str_inj. Qed.

Lemma accepted_elem it rows : forall idx,
  it ∈ accepted idx rows <->
  exists i row, rows !! i = Some row /\
    (parse_row (idx + i) (six_cells row) []).1 = Ok (Some it).
Proof.
  induction rows as [|row rows IH]; intros idx; cbn [accepted].
  - split; [by intros ?%elem_of_nil|by intros (i & r & ? & _)].
  - assert (it ∈ accepted (S idx) rows <->
      exists i row', (row :: rows) !! S i = Some row' /\
        (parse_row (idx + S i) (six_cells row') []).1 = Ok (Some it)) as Htl.
    { rewrite IH. by setoid_rewrite Nat.add_succ_r. }
    split.
    + intros Hin.
      assert (it ∈ accepted (S idx) rows \/
              (parse_row idx (six_cells row) []).1 = Ok (Some it)) as [H|H].
      { destruct (parse_row idx (six_cells row) []).1 as [[it'|]|]; auto.
        apply elem_of_cons in Hin as [->|]; auto. }
      * apply Htl in H as (i & r & ? & ?). by exists (S i), r.
      * exists 0%nat, row. by rewrite Nat.add_0_r.
    + intros ([|i] & r & Hr & Hp).
      * rewrite Nat.add_0_r in Hp. simpl in Hr. simplify_eq. rewrite Hp. by left.
      * assert (it ∈ accepted (S idx) rows) by (apply Htl; eauto).
        destruct (parse_row idx (six_cells row) []).1 as [[it'|]|]; auto.
        by right.
Qed.

Lemma parse_row_key idx (row : list str) l it :
  length row = 6%nat -> (parse_row idx row l).1 = Ok (Some it) ->
  item_key it = row_key idx.
Proof.
  intros (r & ws & Hrun & Hkey)%(parse_row_spec idx) H.
  rewrite Hrun in H. simpl in H. simplify_eq. by apply Hkey.
Qed.

Lemma accepted_key it idx rows :
  it ∈ accepted idx rows ->
  exists i, (i < length rows)%nat /\ item_key it = row_key (idx + i).
Proof.
  intros (i & row & Hr & Hp)%accepted_elem. exists i. split.
  - by apply lookup_lt_Some in Hr.
  - eapply parse_row_key; [apply six_cells_length|done].
Qed.


Lemma foldl_upsert_notin items : forall (js : gmap str job) (k : str),
  k ∉ item_key <$> items -> foldl upsert js items !! k = js !! k.
Proof.
  induction items as [|it items IH]; intros js k Hk; [done|].
  rewrite fmap_cons in Hk. apply not_elem_of_cons in Hk as [Hne Hk].
  cbn [foldl]. rewrite IH by done. unfold upsert. by rewrite lookup_insert_ne.
Qed.



Lemma sweep_lookup (active : gset str) (js : gmap str job) (k : str) :
  sweep active js !! k = if stale active k then None else js !! k.
Proof.
  unfold sweep. destruct (stale active k) eqn:Hk.
  - apply map_lookup_filter_None. right. intros j _. simpl. congruence.
  - destruct (js !! k) as [j|] eqn:Hj.
    + by apply map_lookup_filter_Some.
    + apply map_lookup_filter_None. by left.
Qed.

Lemma elem_of_accepted_keys values (k : str) :
  k ∈ accepted_keys values <-> k ∈ item_key <$> accepted 2 (drop 1 values).
Proof. unfold accepted_keys. by rewrite elem_of_list_to_set. Qed.

Lemma accepted_keys_prefix values (k : str) :
  k ∈ accepted_keys values -> startswith row_prefix k = true.
Proof.
  intros (it & -> & Hin)%elem_of_accepted_keys%list_elem_of_fmap.
  apply accepted_key in Hin as (i & _ & ->). apply row_key_prefix.
Qed.

Lemma reconcile_lookup (values : list (list str)) (js : gmap str job) (k : str) :
  reconcile values js !! k =
  if bool_decide (k ∈ accepted_keys values)
  then foldl upsert js (accepted 2 (drop 1 values)) !! k
  else if startswith row_prefix k then None else js !! k.
Proof.
  unfold reconcile. rewrite sweep_lookup. unfold stale.
  destruct (decide (k ∈ accepted_keys values)) as [Hin|Hout].
  - rewrite !bool_decide_eq_true_2 by done. by rewrite andb_false_r.
  - rewrite !bool_decide_eq_false_2 by done. rewrite andb_true_r.
    destruct (startswith row_prefix k); [done|].
    apply foldl_upsert_notin. by rewrite <- elem_of_accepted_keys.
Qed.


End Rows.

(** ** The claims *)

Section Claims.
Context {U : UnicodeData}.










(** C7.  A row of six cells yields an item only if its status cell,
    trimmed and upper-cased, is one of ["TRUE"], ["1"], ["ДА"], ["TRUE✓"].
    With any other status, such as ["FALSE"], [parse_row] returns [None]
    and writes no warning; the row raises nothing and its key is simply not
    among the cycle's accepted keys. *)
Theorem status_gate idx (row : list str) (c0 : str) (l : list log_record) :
  length row = 6%nat -> row !! 0%nat = Some c0 ->
  truthy = [utf8 "TRUE"; utf8 "1"; utf8 "ДА"; utf8 "TRUE✓"] /\
  (forall it l', parse_row idx row l = (Ok (Some it), l') ->
     upper (strip c0) ∈ truthy) /\
  (upper (strip c0) ∉ truthy -> parse_row idx row l = (Ok None, l)) /\
  parse_row idx sample_inactive l = (Ok None, l) /\
  (forall (values : list (list str)) p,
     drop 1 values !! p = Some row -> upper (strip c0) ∉ truthy ->
     row_key (2 + p) ∉ accepted_keys values).
Proof.
  intros Hlen H0.
  assert (upper (strip c0) ∉ truthy ->
          forall i0 l0, parse_row i0 row l0 = (Ok None, l0)) as Hoff.
  { intros Hno i0 l0.
    apply length_six in Hlen as (? & c1 & c2 & c3 & c4 & c5 & ->).
    simpl in H0. simplify_eq. unfold parse_row. parse_step.
    destruct (str_in (upper (strip c0)) truthy) eqn:Hin; [|done].
    by apply str_in_elem in Hin. }
  split; [reflexivity|]. split; [|split; [|split]].
  - intros it l' Hrun.
    destruct (decide (upper (strip c0) ∈ truthy)) as [|Hno]; [done|].
    rewrite (Hoff Hno) in Hrun. done.
  - intros Hno. by apply Hoff.
  - reflexivity.
  - intros values p Hr Hno
      (it & Hk & Hin)%elem_of_accepted_keys%list_elem_of_fmap.
    apply accepted_elem in Hin as (i & row' & Hr' & Hparse).
    assert (item_key it = row_key (2 + i)) as Hk'
      by (eapply parse_row_key; [apply six_cells_length|done]).
    rewrite Hk' in Hk. apply row_key_inj in Hk.
    assert (i = p) as -> by lia. simplify_eq.
    assert (six_cells row = row) as Hsix.
    { unfold six_cells. rewrite take_app_le by lia. apply take_ge. lia. }
    rewrite Hsix in Hparse.
    rewrite <- (parse_row_fst _ _ l) in Hparse by done.
    rewrite (Hoff Hno) in Hparse. done.
Qed.

Lemma WEEKDAY_MAP_range k v : dict_get WEEKDAY_MAP k = Some v -> v <= 6.
Proof.
  unfold WEEKDAY_MAP. cbn [dict_get].
  repeat (destruct (str_eqb k _); [intros [= <-]; lia|]). done.
Qed.

(** C8.  An active row with a message and a valid time whose period cell,
    trimmed and lower-cased, is ["неделя"] yields a weekly item exactly when
    its weekday cell, trimmed and lower-cased, is a key of the table of
    Russian weekday names, full or short, whose values lie in 0..6; ["пн"]
    is day 0, and the sample row gives day 0 at 14:00.  A weekday outside
    the table is refused with the bad-weekday warning and [None]. *)
Theorem weekly_rows idx (c0 c1 c2 c3 c4 c5 : str) (l : list log_record)
    (h m : N) :
  upper (strip c0) ∈ truthy ->
  strip c1 <> [] ->
  normalize_time (strip c5) = Ok (Some (h, m)) ->
  lower (strip c2) = period_weekly ->
  (forall dow, dict_get WEEKDAY_MAP (lower (strip c4)) = Some dow ->
     dow <= 6 /\
     parse_row idx [c0; c1; c2; c3; c4; c5] l =
       (Ok (Some (Weekly (row_key idx) (strip c1) dow h m)), l)) /\
  (dict_get WEEKDAY_MAP (lower (strip c4)) = None ->
     parse_row idx [c0; c1; c2; c3; c4; c5] l =
       (Ok None, l ++ [RowWarning idx (BadWeekday (lower (strip c4)))])) /\
  WEEKDAY_MAP.*1 =
    [utf8 "понедельник"; utf8 "вторник"; utf8 "среда"; utf8 "четверг";
     utf8 "пятница"; utf8 "суббота"; utf8 "воскресенье";
     utf8 "пн"; utf8 "вт"; utf8 "ср"; utf8 "чт"; utf8 "пт"; utf8 "сб";
     utf8 "вс"] /\
  dict_get WEEKDAY_MAP (utf8 "пн") = Some 0 /\
  parse_row idx sample_weekly l =
    (Ok (Some (Weekly (row_key idx) (utf8 "Sync") 0 14 0)), l).
Proof.
  intros Hon Hmsg Htime Hper.
  assert (forall l0, parse_row idx [c0; c1; c2; c3; c4; c5] l0 =
    match dict_get WEEKDAY_MAP (lower (strip c4)) with
    | Some dow => (Ok (Some (Weekly (row_key idx) (strip c1) dow h m)), l0)
    | None =>
        (Ok None, l0 ++ [RowWarning idx (BadWeekday (lower (strip c4)))])
    end) as Hrun.
  { intros l0. unfold parse_row. parse_step.
    apply str_in_elem in Hon. rewrite Hon. parse_step.
    destruct (strip c1) as [|a msg]; [done|]. rewrite Htime. parse_step.
    rewrite Hper.
    change (str_eqb period_weekly period_daily) with false.
    change (str_eqb period_weekly period_weekly) with true. cbv iota.
    by destruct (dict_get WEEKDAY_MAP (lower (strip c4))). }
  split; [|split; [|split; [|split]]].
  - intros dow Hd. split; [by eapply WEEKDAY_MAP_range|].
    by rewrite Hrun, Hd.
  - intros Hd. by rewrite Hrun, Hd.
  - reflexivity.
  - reflexivity.
  - reflexivity.
Qed.

Lemma range_ok h m :
  h <= 23 -> m <= 59 -> hour_ok h && minute_ok m = true.
Proof.
  intros Hh Hm. unfold hour_ok, minute_ok.
  apply andb_true_iff; split; apply andb_true_iff; split;
    apply N.leb_le; lia.
Qed.

Lemma range_bad h m :
  23 < h \/ 59 < m -> hour_ok h && minute_ok m = false.
Proof.
  intros H. unfold hour_ok, minute_ok. apply andb_false_iff.
  destruct H; [left|right]; apply andb_false_iff; right;
    apply N.leb_gt; lia.
Qed.

(** C5.  A text [HH:MM] or [HH:MM:SS], each field of one or two digits,
    with the hour at most 23 and the minute at most 59 normalises to that
    hour and minute.  With the hour above 23 or the minute above 59 the
    first pattern's candidate is refused, control falls through the two
    remaining patterns, which find nothing, and the result is [None]; so
    hour 24 and minute 60 are unparseable. *)
Theorem normalize_time_hms_range (hh mm t : str) (h m : N) :
  digits12 hh h -> digits12 mm m -> seconds_tail t ->
  (h <= 23 -> m <= 59 ->
   normalize_time (hh ++ colon :: mm ++ t) = Ok (Some (h, m))) /\
  (23 < h \/ 59 < m ->
   try_hms (hh ++ colon :: mm ++ t) = Ok None /\
   try_sep (hh ++ colon :: mm ++ t) = Ok None /\
   try_hour (hh ++ colon :: mm ++ t) = Ok None /\
   normalize_time (hh ++ colon :: mm ++ t) = Ok None) /\
  normalize_time (utf8 "24:00") = Ok None /\
  normalize_time (utf8 "23:60") = Ok None /\
  normalize_time (utf8 "24:00:00") = Ok None.
Proof.
  intros Hh Hm Ht. split; [|split; [|by repeat split]].
  - intros Hhr Hmr. rewrite (normalize_time_hms hh mm t h m) by done.
    by rewrite range_ok.
  - intros Hbad%range_bad.
    destruct (blocks_hms hh mm t h m Hh Hm Ht) as (_ & H1 & H23).
    destruct (H23 Hbad) as [H2 H3]. rewrite Hbad in H1.
    repeat split; [done..|].
    rewrite (normalize_time_hms hh mm t h m) by done. by rewrite Hbad.
Qed.

(** C6.  [normalize_time] reads, the earlier form first: [HH:MM] or
    [HH:MM:SS]; [HH], one separator and [MM], the separator a colon, a
    period, a hyphen or a blank; and [HH] alone, the minute then 0.  So
    ["16.00"], ["16-00"] and ["16"] all give (16, 0).  An empty or blank
    text gives [None]. *)
Theorem normalize_time_forms :
  (forall (hh mm t : str) (h m : N),
     digits12 hh h -> digits12 mm m -> seconds_tail t ->
     h <= 23 -> m <= 59 ->
     normalize_time (hh ++ colon :: mm ++ t) = Ok (Some (h, m))) /\
  (forall (hh mm : str) (c h m : N),
     digits12 hh h -> digits12 mm m -> separator c ->
     h <= 23 -> m <= 59 ->
     normalize_time (hh ++ c :: mm) = Ok (Some (h, m))) /\
  (forall (hh : str) (h : N),
     digits12 hh h -> h <= 23 -> normalize_time hh = Ok (Some (h, 0))) /\
  (forall (s : str) r,
     (try_hms (strip s) = Ok (Some r) -> normalize_time s = Ok (Some r)) /\
     (try_hms (strip s) = Ok None -> try_sep (strip s) = Ok (Some r) ->
      normalize_time s = Ok (Some r)) /\
     (try_hms (strip s) = Ok None -> try_sep (strip s) = Ok None ->
      normalize_time s = try_hour (strip s))) /\
  normalize_time (utf8 "16.00") = Ok (Some (16, 0)) /\
  normalize_time (utf8 "16-00") = Ok (Some (16, 0)) /\
  normalize_time (utf8 "16 00") = Ok (Some (16, 0)) /\
  normalize_time (utf8 "16") = Ok (Some (16, 0)) /\
  normalize_time [] = Ok None /\
  (forall s : str, forallb isspace s = true -> normalize_time s = Ok None).
Proof.
  split; [|split; [|split; [|split; [|by repeat split;
    try apply normalize_time_blank]]]].
  - intros hh mm t h m Hh Hm Ht Hhr Hmr.
    rewrite (normalize_time_hms hh mm t h m) by done. by rewrite range_ok.
  - intros hh mm c h m Hh Hm Hc Hhr Hmr.
    rewrite (normalize_time_sep hh mm c h m) by done. by rewrite range_ok.
  - intros hh h Hh Hhr. rewrite (normalize_time_hour hh h) by done.
    destruct (proj1 (andb_true_iff _ _) (range_ok h 0 Hhr ltac:(lia)))
      as [-> _]. done.
  - intros s r. unfold normalize_time. repeat split.
    + by intros ->.
    + by intros -> ->.
    + intros -> ->. cbn.
      destruct (try_hour_total (strip s)) as [[?|] ->]; done.
Qed.

(** C10.  The seconds of [HH:MM:SS] are matched and dropped, never
    checked: with the hour at most 23 and the minute at most 59 the result
    is that hour and minute whatever one or two digits the seconds are;
    ["16:30:99"] gives (16, 30). *)
Theorem seconds_are_not_validated (hh mm ss : str) (h m sec : N) :
  digits12 hh h -> digits12 mm m -> digits12 ss sec ->
  h <= 23 -> m <= 59 ->
  normalize_time (hh ++ colon :: mm ++ colon :: ss) = Ok (Some (h, m)) /\
  digits12 (utf8 "99") 99 /\
  normalize_time (utf8 "16:30:99") = Ok (Some (16, 30)).
Proof.
  intros Hh Hm Hs Hhr Hmr. split; [|split; [|done]].
  - rewrite (normalize_time_hms hh mm (colon :: ss) h m);
      [by rewrite range_ok|done|done|].
    right. by exists ss, sec.
  - split; [simpl; lia|done].
Qed.

End Claims.

(** ** The claims at sample inputs *)


(** The row whose status is ["FALSE"] is off. *)
Lemma status_gate_sample :
  parse_row (U := fragment) 2 sample_inactive [] = (Ok None, []).
Proof.
  destruct (status_gate (U := fragment) 2 sample_inactive (utf8 "FALSE") [])
    as (_ & _ & Hoff & _).
  - reflexivity.
  - reflexivity.
  - apply Hoff. intros Hin. apply str_in_elem in Hin. discriminate Hin.
Defined.

(** The weekly sample row, read as sheet row 3. *)
Lemma weekly_rows_sample :
  parse_row (U := fragment) 3 sample_weekly [] =
  (Ok (Some (Weekly (utf8 "row-3") (utf8 "Sync") 0 14 0)), []).
Proof.
  destruct (weekly_rows (U := fragment) 3 (utf8 "TRUE") (utf8 "Sync")
              (utf8 "неделя") [] (utf8 "пн") (utf8 "14:00") [] 14 0)
    as (Hyes & _).
  - apply str_in_elem. reflexivity.
  - discriminate.
  - reflexivity.
  - reflexivity.
  - destruct (Hyes 0) as [_ Hrun]; [reflexivity|]. exact Hrun.
Defined.

(** ["09:30"] is half past nine. *)
Lemma normalize_time_hms_range_sample :
  normalize_time (U := fragment) (utf8 "09:30") = Ok (Some (9, 30)).
Proof.
  destruct (normalize_time_hms_range (U := fragment) (utf8 "09") (utf8 "30")
              [] 9 30) as (Hin & _).
  - split; [simpl; lia|reflexivity].
  - split; [simpl; lia|reflexivity].
  - left. reflexivity.
  - apply Hin; lia.
Defined.

(** Seconds of 99 pass. *)
Lemma seconds_are_not_validated_sample :
  normalize_time (U := fragment) (utf8 "16:30:99") = Ok (Some (16, 30)).
Proof.
  destruct (seconds_are_not_validated (U := fragment) (utf8 "16") (utf8 "30")
              (utf8 "99") 16 30 99) as (Hrun & _).
  - split; [simpl; lia|reflexivity].
  - split; [simpl; lia|reflexivity].
  - split; [simpl; lia|reflexivity].
  - lia.
  - lia.
  - exact Hrun.
Defined.


(** * Properties of the rest of the code *)

(** ** More on trimming *)

Section Trimming.

Lemma lstrip_blank s : forallb isspace s = true -> lstrip s = [].
Proof.
  induction s as [|c s IH]; simpl; [done|].
  intros [-> ?]%andb_true_iff. auto.
Qed.

Lemma lstrip_app s t :
  lstrip (s ++ t) = match lstrip s with [] => lstrip t | _ => lstrip s ++ t end.
Proof.
  induction s as [|c s IH]; simpl; [by destruct (lstrip t)|].
  destruct (isspace c); [done|]. done.
Qed.

Lemma lstrip_split s :
  exists pre, forallb isspace pre = true /\ s = pre ++ lstrip s.
Proof.
  induction s as [|c s (pre & Hpre & IH)]; simpl; [by exists []|].
  destruct (isspace c) eqn:Hc.
  - exists (c :: pre). simpl. rewrite Hc, Hpre. split; [done|]. by f_equal.
  - by exists [].
Qed.

Lemma lstrip_head s c t : lstrip s = c :: t -> isspace c = false.
Proof.
  induction s as [|a s IH]; simpl; [done|].
  destruct (isspace a) eqn:Ha; [done|]. by intros [= <- _].
Qed.

Lemma forallb_isspace_rev s :
  forallb isspace (rev s) = forallb isspace s.
Proof.
  induction s as [|c s IH]; simpl; [done|].
  rewrite forallb_app, IH. simpl. rewrite andb_true_r. apply andb_comm.
Qed.

Lemma rstrip_split s :
  exists post, forallb isspace post = true /\ s = rstrip s ++ post.
Proof.
  unfold rstrip. destruct (lstrip_split (rev s)) as (pre & Hpre & Hs).
  exists (rev pre). rewrite forallb_isspace_rev. split; [done|].
  rewrite <- rev_app_distr, <- Hs. by rewrite rev_involutive.
Qed.

Lemma rstrip_app_blank s post :
  forallb isspace post = true -> rstrip (s ++ post) = rstrip s.
Proof.
  intros Hpost. unfold rstrip. rewrite rev_app_distr, lstrip_app.
  rewrite (lstrip_blank (rev post)) by (by rewrite forallb_isspace_rev).
  done.
Qed.

Lemma rstrip_last s z : last (rstrip s) = Some z -> isspace z = false.
Proof.
  unfold rstrip. intros H. apply last_Some in H as [l' Hl].
  apply (f_equal (@rev N)) in Hl. rewrite rev_involutive, rev_app_distr in Hl.
  simpl in Hl. by apply lstrip_head in Hl.
Qed.

(** what [strip] returns has no blank at either end *)
Lemma strip_ends s :
  strip s = [] \/
  exists a z, head (strip s) = Some a /\ last (strip s) = Some z /\
    isspace a = false /\ isspace z = false.
Proof.
  unfold strip. destruct (rstrip (lstrip s)) as [|a t] eqn:Hr; [by left|].
  right. destruct (rstrip_split (lstrip s)) as (post & _ & Hs).
  rewrite Hr in Hs. simpl in Hs.
  assert (is_Some (last (a :: t))) as [z Hz] by (by apply last_is_Some).
  exists a, z. repeat split; [done| |].
  - by apply lstrip_head in Hs.
  - apply (rstrip_last (lstrip s)). by rewrite Hr.
Qed.

Lemma strip_idemp s : strip (strip s) = strip s.
Proof.
  destruct (strip_ends s) as [->|(a & z & Ha & Hz & ? & ?)]; [done|].
  by apply (strip_id _ a z).
Qed.

Lemma strip_pad pre s post :
  forallb isspace pre = true -> forallb isspace post = true ->
  strip (pre ++ s ++ post) = strip s.
Proof.
  intros Hpre Hpost. unfold strip.
  rewrite lstrip_app, (lstrip_blank pre Hpre), lstrip_app.
  destruct (lstrip s) as [|c t] eqn:Hs.
  - by rewrite (lstrip_blank post Hpost).
  - by apply rstrip_app_blank.
Qed.

End Trimming.

(** ** Greedy repetition *)

Section Greedy.
Context {U : UnicodeData}.

(** a repetition without upper bound takes the whole run when what
    follows the run accepts there *)
Lemma rep_greedy {R} k lo pos (run rest : str)
    (cont : nat -> str -> option R) r :
  Forall (fun c => cset_mem k c = true) run ->
  (rest = [] \/ exists c t, rest = c :: t /\ cset_mem k c = false) ->
  (lo <= length run)%nat ->
  cont (pos + length run)%nat rest = Some r ->
  rep k lo None pos (run ++ rest) cont = Some r.
Proof.
  intros Hrun Hrest. revert lo pos.
  induction Hrun as [|c run Hc _ IH]; intros lo pos Hlo Hk;
    cbn [app length] in *.
  - assert (lo = 0%nat) as -> by lia. rewrite Nat.add_0_r in Hk.
    destruct Hrest as [->|(c & t & -> & Hc)]; [by rewrite rep_nil|].
    rewrite rep_cons, Hc. done.
  - rewrite rep_cons, Hc. cbn [andb negb is_zero option_map].
    rewrite (IH (Nat.pred lo) (S pos)); [done|lia|].
    by rewrite Nat.add_succ_r in Hk.
Qed.

Lemma rep_none {R} k lo hi pos c (s : str) (cont : nat -> str -> option R) :
  cset_mem k c = false -> (1 <= lo)%nat ->
  rep k lo hi pos (c :: s) cont = None.
Proof. intros Hc Hlo. rewrite rep_cons, Hc. by destruct lo; [lia|]. Qed.

Lemma digits_value_app a b acc n :
  digits_value acc a = Some n ->
  digits_value acc (a ++ b) = digits_value n b.
Proof.
  revert acc. induction a as [|c a IH]; intros acc; simpl; [by intros [= ->]|].
  destruct (digit_value c); [apply IH|done].
Qed.


Lemma digits_value_acc s : forall acc acc' n,
  digits_value acc s = Some n -> exists n', digits_value acc' s = Some n'.
Proof.
  induction s as [|c s IH]; intros acc acc' n; simpl; [eauto|].
  destruct (digit_value c); [apply IH|done].
Qed.

End Greedy.

(** ** Times, day numbers and chat ids *)

Section Readers.
Context {U : UnicodeData}.

Lemma hour_ok_le h : hour_ok h = true -> h <= 23.
Proof. unfold hour_ok. intros [_ H%N.leb_le]%andb_true_iff. done. Qed.

Lemma minute_ok_le m : minute_ok m = true -> m <= 59.
Proof. unfold minute_ok. intros [_ H%N.leb_le]%andb_true_iff. done. Qed.

Lemma try_hms_range s h m :
  try_hms s = Ok (Some (h, m)) -> h <= 23 /\ m <= 59.
Proof.
  unfold try_hms. destruct (re_match re_hms s) as [mo|]; [|done].
  destruct (py_int (group mo 1)) as [h0|]; [|done].
  destruct (py_int (group mo 2)) as [m0|]; [|done]. cbn.
  destruct (hour_ok h0 && minute_ok m0) eqn:E; [|done]. intros [= <- <-].
  apply andb_true_iff in E as [? ?].
  split; [by apply hour_ok_le|by apply minute_ok_le].
Qed.

Lemma try_sep_range s h m :
  try_sep s = Ok (Some (h, m)) -> h <= 23 /\ m <= 59.
Proof.
  unfold try_sep. destruct (re_search re_sep s) as [mo|]; [|done].
  destruct (py_int (group mo 1)) as [h0|]; [|done].
  destruct (py_int (group mo 2)) as [m0|]; [|done]. cbn.
  destruct (hour_ok h0 && minute_ok m0) eqn:E; [|done]. intros [= <- <-].
  apply andb_true_iff in E as [? ?].
  split; [by apply hour_ok_le|by apply minute_ok_le].
Qed.

Lemma try_hour_range s h m :
  try_hour s = Ok (Some (h, m)) -> h <= 23 /\ m <= 59.
Proof.
  unfold try_hour. destruct (re_match re_hour s) as [mo|]; [|done].
  destruct (py_int (group mo 1)) as [h0|]; [|done]. cbn.
  destruct (hour_ok h0) eqn:E; [|done]. intros [= <- <-].
  split; [by apply hour_ok_le|lia].
Qed.

Lemma normalize_time_range s h m :
  normalize_time s = Ok (Some (h, m)) -> h <= 23 /\ m <= 59.
Proof.
  unfold normalize_time, or_else.
  destruct (try_hms (strip s)) as [[[h1 m1]|]|] eqn:Ha; cbn; [| |done].
  { intros [= <- <-]. exact (try_hms_range _ _ _ Ha). }
  destruct (try_sep (strip s)) as [[[h2 m2]|]|] eqn:Hb; cbn; [| |done].
  { intros [= <- <-]. exact (try_sep_range _ _ _ Hb). }
  destruct (try_hour (strip s)) as [[[h3 m3]|]|] eqn:Hc; cbn; [|done..].
  intros [= <- <-]. exact (try_hour_range _ _ _ Hc).
Qed.

(** X1. [normalize_time] raises on no text, and a time it returns has its
    hour in 0..23 and its minute in 0..59. *)
Theorem normalize_time_returns_a_time_of_day (s : str) :
  exists r, normalize_time s = Ok r /\
    forall h m, r = Some (h, m) -> h <= 23 /\ m <= 59.
Proof.
  destruct (normalize_time_total s) as [r Hr]. exists r. split; [done|].
  intros h m ->. exact (normalize_time_range s h m Hr).
Qed.

(** X2. blanks around a time do not matter. *)
Theorem normalize_time_ignores_blanks (pre s post : str) :
  forallb isspace pre = true -> forallb isspace post = true ->
  normalize_time (pre ++ s ++ post) = normalize_time s.
Proof.
  intros Hpre Hpost. unfold normalize_time. by rewrite strip_pad.
Qed.

Lemma search_from_skip r pre : forall pos s,
  Forall (fun c => forall t p, match_at r p (c :: t) = None) pre ->
  search_from r pos (pre ++ s) = search_from r (pos + length pre) s.
Proof.
  induction pre as [|c pre IH]; intros pos s Hpre; simpl.
  - by rewrite Nat.add_0_r.
  - apply Forall_cons in Hpre as [Hc Hpre].
    change (match_at r pos (c :: pre ++ s)) with
      (match_at r pos (c :: (pre ++ s))).
    rewrite Hc, IH by done. by rewrite Nat.add_succ_r.
Qed.








End Readers.

(** ** Rows *)

Section ParsedRows.
Context {U : UnicodeData}.

Lemma str_eqb_refl s : str_eqb s s = true.
Proof. by apply str_eqb_eq. Qed.

Lemma str_eqb_neq a b : a <> b -> str_eqb a b = false.
Proof.
  intros Hne. destruct (str_eqb a b) eqn:E; [|done].
  by apply str_eqb_eq in E.
Qed.

(** how [parse_row] runs on six cells once the status is on, the message
    is not empty and the time is valid *)
Lemma parse_row_dispatch idx (c0 c1 c2 c3 c4 c5 : str) l h m :
  upper (strip c0) ∈ truthy -> strip c1 <> [] ->
  normalize_time (strip c5) = Ok (Some (h, m)) ->
  parse_row idx [c0; c1; c2; c3; c4; c5] l =
  if str_eqb (lower (strip c2)) period_daily then
    (Ok (Some (Daily (row_key idx) (strip c1) h m)), l)
  else if str_eqb (lower (strip c2)) period_weekly then
    match dict_get WEEKDAY_MAP (lower (strip c4)) with
    | Some dow => (Ok (Some (Weekly (row_key idx) (strip c1) dow h m)), l)
    | None =>
        (Ok None, l ++ [RowWarning idx (BadWeekday (lower (strip c4)))])
    end
  else if str_eqb (lower (strip c2)) period_monthly then
    match extract_first_digits (strip c3) with
    | Ok (Some d) =>
        if (1 <=? d) && (d <=? 31) then
          (Ok (Some (Monthly (row_key idx) (strip c1) d h m)), l)
        else (Ok None, l ++ [RowWarning idx (BadDayOfMonth (strip c3))])
    | Ok None => (Ok None, l ++ [RowWarning idx (BadDayOfMonth (strip c3))])
    | Raise e => (Raise e, l)
    end
  else (Ok None, l ++ [RowWarning idx (UnknownPeriod (lower (strip c2)))]).
Proof.
  intros Hon%str_in_elem Hmsg Htime. unfold parse_row. parse_step.
  rewrite Hon. parse_step.
  destruct (strip c1) as [|a msg]; [done|]. rewrite Htime. parse_step.
  destruct (str_eqb (lower (strip c2)) period_daily); [done|].
  destruct (str_eqb (lower (strip c2)) period_weekly).
  { by destruct (dict_get WEEKDAY_MAP (lower (strip c4))). }
  destruct (str_eqb (lower (strip c2)) period_monthly); [|done].
  destruct (extract_first_digits (strip c3)) as [[d|]|]; parse_step;
    [|done..].
  by destruct ((1 <=? d) && (d <=? 31)).
Qed.

(** X5. a daily row.  With the status on, a message and a valid time, the
    period ["день"] gives a daily item of the trimmed message at that time,
    whatever the date and weekday cells hold, and writes no warning. *)
Theorem daily_rows idx (c0 c1 c2 c3 c4 c5 : str) (l : list log_record)
    (h m : N) :
  upper (strip c0) ∈ truthy ->
  strip c1 <> [] ->
  normalize_time (strip c5) = Ok (Some (h, m)) ->
  lower (strip c2) = period_daily ->
  parse_row idx [c0; c1; c2; c3; c4; c5] l =
    (Ok (Some (Daily (row_key idx) (strip c1) h m)), l).
Proof.
  intros Hon Hmsg Htime Hper.
  rewrite (parse_row_dispatch idx c0 c1 c2 c3 c4 c5 l h m) by done.
  by rewrite Hper.
Qed.


(** X7. the checks of an active row run in the order message, time, period:
    an empty message is refused whatever the other cells hold, then a bad
    time, then a period that is none of the three words; each refusal
    returns [None] and writes one warning that names the row. *)
Theorem active_row_refusals idx (c0 c1 c2 c3 c4 c5 : str)
    (l : list log_record) :
  upper (strip c0) ∈ truthy ->
  (strip c1 = [] ->
   parse_row idx [c0; c1; c2; c3; c4; c5] l =
     (Ok None, l ++ [RowWarning idx EmptyMessage])) /\
  (strip c1 <> [] -> normalize_time (strip c5) = Ok None ->
   parse_row idx [c0; c1; c2; c3; c4; c5] l =
     (Ok None, l ++ [RowWarning idx (BadTime (strip c5))])) /\
  (strip c1 <> [] ->
   forall h m, normalize_time (strip c5) = Ok (Some (h, m)) ->
   lower (strip c2) <> period_daily ->
   lower (strip c2) <> period_weekly ->
   lower (strip c2) <> period_monthly ->
   parse_row idx [c0; c1; c2; c3; c4; c5] l =
     (Ok None, l ++ [RowWarning idx (UnknownPeriod (lower (strip c2)))])).
Proof.
  intros Hon. split; [|split].
  - intros Hmsg. apply str_in_elem in Hon. unfold parse_row. parse_step.
    rewrite Hon. parse_step. by rewrite Hmsg.
  - intros Hmsg Htime. apply str_in_elem in Hon. unfold parse_row.
    parse_step. rewrite Hon. parse_step.
    destruct (strip c1); [done|]. by rewrite Htime.
  - intros Hmsg h m Htime Hd Hw Hm.
    rewrite (parse_row_dispatch idx c0 c1 c2 c3 c4 c5 l h m) by done.
    by rewrite !str_eqb_neq by done.
Qed.

(** X8. an item [parse_row] returns for a row of six cells is well formed:
    its key is that of the row, its message is the trimmed message cell
    and is not empty, its time is a time of day, a weekly item's day is in
    0..6 and a monthly item's in 1..31; and returning it wrote no
    warning. *)
Theorem parse_row_items_are_well_formed idx (c0 c1 c2 c3 c4 c5 : str)
    (l l' : list log_record) (it : item) :
  parse_row idx [c0; c1; c2; c3; c4; c5] l = (Ok (Some it), l') ->
  item_ok idx it /\ item_message it = strip c1 /\ l' = l /\
  upper (strip c0) ∈ truthy.
Proof.
  intros Hrun.
  assert (upper (strip c0) ∈ truthy) as Hon.
  { destruct (decide (upper (strip c0) ∈ truthy)) as [|Hno]; [done|].
    exfalso. revert Hrun. unfold parse_row. parse_step.
    destruct (str_in (upper (strip c0)) truthy) eqn:Hin; [|done].
    by apply str_in_elem in Hin. }
  destruct (strip c1) as [|a msg] eqn:Hmsg.
  { exfalso. revert Hrun. apply str_in_elem in Hon. unfold parse_row.
    parse_step. rewrite Hon. parse_step. by rewrite Hmsg. }
  destruct (normalize_time_total (strip c5)) as [[[h m]|] Htime].
  2:{ exfalso. revert Hrun. apply str_in_elem in Hon. unfold parse_row.
      parse_step. rewrite Hon. parse_step. by rewrite Hmsg, Htime. }
  pose proof (normalize_time_range _ _ _ Htime) as [Hh Hm].
  assert (strip (a :: msg) = a :: msg) as Htrim
    by (rewrite <- Hmsg; apply strip_idemp).
  rewrite (parse_row_dispatch idx c0 c1 c2 c3 c4 c5 l h m) in Hrun;
    [|done|by rewrite Hmsg|done].
  rewrite Hmsg in Hrun.
  destruct (str_eqb (lower (strip c2)) period_daily).
  { injection Hrun as <- <-. by repeat split. }
  destruct (str_eqb (lower (strip c2)) period_weekly).
  { destruct (dict_get WEEKDAY_MAP (lower (strip c4))) as [dow|] eqn:Hd;
      [|done].
    injection Hrun as <- <-. repeat split; try done.
    by eapply WEEKDAY_MAP_range. }
  destruct (str_eqb (lower (strip c2)) period_monthly); [|done].
  destruct (extract_first_digits (strip c3)) as [[d|]|]; [|done..].
  destruct ((1 <=? d) && (d <=? 31)) eqn:Hd; [|done].
  apply andb_true_iff in Hd as [?%N.leb_le ?%N.leb_le].
  injection Hrun as <- <-. by repeat split.
Qed.

Lemma parse_row_none_log idx (c0 c1 c2 c3 c4 c5 : str)
    (l l' : list log_record) :
  upper (strip c0) ∈ truthy ->
  parse_row idx [c0; c1; c2; c3; c4; c5] l = (Ok None, l') ->
  exists why, l' = l ++ [RowWarning idx why].
Proof.
  intros Hon Hrun.
  destruct (strip c1) as [|a msg] eqn:Hmsg.
  { revert Hrun. apply str_in_elem in Hon. unfold parse_row.
    parse_step. rewrite Hon. parse_step. rewrite Hmsg. intros [= <-]. eauto. }
  destruct (normalize_time_total (strip c5)) as [[[h m]|] Htime].
  2:{ revert Hrun. apply str_in_elem in Hon. unfold parse_row.
      parse_step. rewrite Hon. parse_step. rewrite Hmsg, Htime.
      intros [= <-]. eauto. }
  rewrite (parse_row_dispatch idx c0 c1 c2 c3 c4 c5 l h m) in Hrun;
    [|done|by rewrite Hmsg|done].
  destruct (str_eqb (lower (strip c2)) period_daily); [done|].
  destruct (str_eqb (lower (strip c2)) period_weekly).
  { destruct (dict_get WEEKDAY_MAP (lower (strip c4))); [done|].
    injection Hrun as <-. eauto. }
  destruct (str_eqb (lower (strip c2)) period_monthly);
    [|injection Hrun as <-; eauto].
  destruct (extract_first_digits (strip c3)) as [[d|]|]; [| |done].
  - destruct ((1 <=? d) && (d <=? 31)); [done|].
    injection Hrun as <-. eauto.
  - injection Hrun as <-. eauto.
Qed.

(** X9. a row of six cells whose status is on and that yields no item
    leaves exactly one warning, under its own row number; a row whose
    status is off leaves none. *)
Theorem active_rows_warn_once idx (c0 c1 c2 c3 c4 c5 : str)
    (l l' : list log_record) :
  parse_row idx [c0; c1; c2; c3; c4; c5] l = (Ok None, l') ->
  (upper (strip c0) ∈ truthy -> exists why, l' = l ++ [RowWarning idx why]) /\
  (upper (strip c0) ∉ truthy -> l' = l).
Proof.
  intros Hrun. split.
  - intros Hon. by eapply parse_row_none_log.
  - intros Hoff. revert Hrun. unfold parse_row. parse_step.
    destruct (str_in (upper (strip c0)) truthy) eqn:Hin;
      [by apply str_in_elem in Hin|].
    by intros [= <-].
Qed.

End ParsedRows.

(** ** Cycles and ticks *)

Section Cycles.
Context {U : UnicodeData}.



Lemma refresh_schedule_jobs (src : source) (w : world) :
  jobs (refresh_schedule src w).2 =
  match src with
  | Sheet values =>
      if (length values <? 2)%nat then jobs w
      else reconcile values (jobs w)
  | Unavailable _ => jobs w
  end.
Proof.
  destruct src as [st|values].
  - by destruct (refresh_schedule_unavailable st w) as [l' ->].
  - destruct (Nat.ltb_spec (length values) 2) as [Hshort|Hlen].
    + by rewrite refresh_schedule_short.
    + by destruct (refresh_schedule_run values w Hlen) as [l' ->].
Qed.

Lemma reconcile_lookup_other (values : list (list str)) (js : gmap str job)
    (k : str) :
  startswith row_prefix k = false -> reconcile values js !! k = js !! k.
Proof.
  intros Hk. rewrite reconcile_lookup, Hk.
  rewrite bool_decide_eq_false_2; [done|].
  intros Hin%accepted_keys_prefix. congruence.
Qed.

(** X12. a cycle never touches a job whose id does not begin with ["row-"],
    whatever the row source does. *)
Theorem refresh_leaves_other_jobs (src : source) (w : world) (k : str) :
  startswith row_prefix k = false ->
  jobs (refresh_schedule src w).2 !! k = jobs w !! k /\
  jobs (poll src w).2 !! k = jobs w !! k.
Proof.
  intros Hk.
  assert (jobs (refresh_schedule src w).2 !! k = jobs w !! k) as Hr.
  { rewrite refresh_schedule_jobs. destruct src as [st|values]; [done|].
    destruct (length values <? 2)%nat; [done|].
    by apply reconcile_lookup_other. }
  split; [done|]. unfold poll, try_except.
  destruct (refresh_schedule src w) as [[[]|e] w'] eqn:Hrun; [done|].
  destruct src as [st|values].
  - destruct (refresh_schedule_unavailable st w) as [l' Hu].
    rewrite Hu in Hrun. by simplify_eq.
  - simpl in Hr. done.
Qed.










End Cycles.

(** ** The characters of a time *)

Section TimeCharacters.
Context {U : UnicodeData}.

Lemma cset_mem_app k1 k2 c :
  cset_mem (k1 ++ k2) c = cset_mem k1 c || cset_mem k2 c.
Proof. unfold cset_mem. apply existsb_app. Qed.

(** a match consumes characters of the pattern's classes only, and a
    pattern that ends with [$] leaves nothing, or one newline *)
Lemma rmatch_consumes {R} r : forall pos s g
    (cont : nat -> str -> groups -> option R) m,
  rmatch r pos s g cont = Some m ->
  exists t s' pos' g',
    s = t ++ s' /\
    Forall (fun c => cset_mem (atoms_of r) c = true) t /\
    (ends_with_eol r = true -> s' = [] \/ s' = [10]) /\
    cont pos' s' g' = Some m.
Proof.
  induction r as [| |k lo hi|n r IH|r IH|r1 IH1 r2 IH2];
    intros pos s g cont m H; cbn [rmatch] in H.
  - destruct pos; [|done]. exists [], s, 0%nat, g. by repeat split.
  - exists [], s, pos, g. repeat split; [constructor| |].
    + intros _. destruct s as [|c [|]]; [by left| |done].
      destruct (N.eqb_spec c 10) as [->|]; [by right|done].
    + destruct s as [|c [|]]; try done. by destruct (c =? 10).
  - apply rep_sound in H as (t & s' & -> & Ht & _ & Hc).
    exists t, s', (pos + length t)%nat, g. by repeat split.
  - apply IH in H as (t & s' & pos' & g' & -> & Ht & _ & Hc).
    eexists t, s', pos', _. repeat split; [done|done|exact Hc].
  - destruct (rmatch r pos s g cont) as [m'|] eqn:Hr.
    + simplify_eq. apply IH in Hr as (t & s' & pos' & g' & -> & Ht & _ & Hc).
      exists t, s', pos', g'. by repeat split.
    + exists [], s, pos, g. repeat split; [constructor|done|done].
  - apply IH1 in H as (t1 & s1 & p1 & g1 & -> & Ht1 & _ & H).
    apply IH2 in H as (t2 & s' & pos' & g' & -> & Ht2 & He & Hc).
    exists (t1 ++ t2), s', pos', g'. rewrite <- (assoc_L (++)).
    repeat split; [|done|done]. cbn [atoms_of]. apply Forall_app. split.
    + eapply Forall_impl; [exact Ht1|]. intros c Hc1.
      by rewrite cset_mem_app, Hc1.
    + eapply Forall_impl; [exact Ht2|]. intros c Hc2.
      by rewrite cset_mem_app, Hc2, orb_true_r.
Qed.

Lemma match_time_chars r (s : str) mo :
  re_match r s = Some mo -> ends_with_eol r = true ->
  (forall c, cset_mem (atoms_of r) c = true -> time_char c = true) ->
  Forall (fun c => time_char c = true) s.
Proof.
  intros Hm He Hr. unfold re_match, match_at in Hm.
  apply rmatch_consumes in Hm as (t & s' & pos' & g' & -> & Ht & Hs' & _).
  apply Forall_app. split.
  - eapply Forall_impl; [exact Ht|]. done.
  - destruct (Hs' He) as [->| ->]; [constructor|]. by repeat constructor.
Qed.

Ltac atoms_time :=
  let c := fresh "c" in let H := fresh "H" in
  intros c H; cbn in H; unfold time_char;
  repeat match type of H with
  | (_ || _) = true => apply orb_true_iff in H as [H|H]
  end; try done; rewrite ?H, ?orb_true_r; done.

Lemma try_hms_chars (s : str) r :
  try_hms s = Ok (Some r) -> Forall (fun c => time_char c = true) s.
Proof.
  unfold try_hms. destruct (re_match re_hms s) as [mo|] eqn:Hm; [|done].
  intros _. apply (match_time_chars _ _ _ Hm); [done|]. atoms_time.
Qed.

Lemma try_sep_chars (s : str) r :
  try_sep s = Ok (Some r) -> Forall (fun c => time_char c = true) s.
Proof.
  unfold try_sep, re_sep. rewrite search_anchored.
  destruct (re_match _ s) as [mo|] eqn:Hm; [|done].
  intros _. apply (match_time_chars _ _ _ Hm); [done|]. atoms_time.
Qed.

Lemma try_hour_chars (s : str) r :
  try_hour s = Ok (Some r) -> Forall (fun c => time_char c = true) s.
Proof.
  unfold try_hour. destruct (re_match re_hour s) as [mo|] eqn:Hm; [|done].
  intros _. apply (match_time_chars _ _ _ Hm); [done|]. atoms_time.
Qed.

Lemma blank_time_chars (s : str) :
  forallb isspace s = true -> Forall (fun c => time_char c = true) s.
Proof.
  intros H. apply Forall_forall. intros c Hc%list_elem_of_In.
  rewrite forallb_forall in H. unfold time_char.
  by rewrite (H c Hc), orb_true_r.
Qed.

(** X17. a text [normalize_time] reads as a time holds nothing but digits,
    blanks, colons, periods and hyphens; a text with any other character
    gives [None]. *)
Theorem normalize_time_reads_time_characters_only (s : str) :
  (forall r, normalize_time s = Ok (Some r) ->
     Forall (fun c => time_char c = true) s) /\
  (forall c, c ∈ s -> time_char c = false -> normalize_time s = Ok None).
Proof.
  assert (forall r, normalize_time s = Ok (Some r) ->
                    Forall (fun c => time_char c = true) s) as Hall.
  { intros r Hr.
    assert (Forall (fun c => time_char c = true) (strip s)) as Hstrip.
    { revert Hr. unfold normalize_time, or_else.
      destruct (try_hms (strip s)) as [[r1|]|] eqn:Ha; cbn; [| |done].
      { intros _. by eapply try_hms_chars. }
      destruct (try_sep (strip s)) as [[r2|]|] eqn:Hb; cbn; [| |done].
      { intros _. by eapply try_sep_chars. }
      destruct (try_hour (strip s)) as [[r3|]|] eqn:Hc; cbn; [|done..].
      intros _. by eapply try_hour_chars. }
    destruct (lstrip_split s) as (pre & Hpre & Hs).
    destruct (rstrip_split (lstrip s)) as (post & Hpost & Hl).
    assert (Forall (fun c => time_char c = true) (pre ++ strip s ++ post))
      as Hfull.
    { apply Forall_app. split; [by apply blank_time_chars|].
      apply Forall_app. split; [done|by apply blank_time_chars]. }
    unfold strip in Hfull. by rewrite <- Hl, <- Hs in Hfull. }
  split; [done|]. intros c Hc Hbad.
  destruct (normalize_time_total s) as [[r|] Hr]; [|done].
  apply Hall in Hr. rewrite Forall_forall in Hr.
  rewrite (Hr c) in Hbad; [done|]. first [done|by apply list_elem_of_In].
Qed.

End TimeCharacters.

(** ** Keywords *)

Section KeywordProps.
Context {U : UnicodeData}.

Lemma filter_all {A} (P : A -> Prop) `{forall x, Decision (P x)} (l : list A) :
  Forall P l -> filter P l = l.
Proof.
  induction 1 as [|x l Hx _ IH]; [done|].
  rewrite filter_cons, decide_True by done. by rewrite IH.
Qed.

Lemma filter_none {A} (P : A -> Prop) `{forall x, Decision (P x)} (l : list A) :
  Forall (fun x => ~ P x) l -> filter P l = [].
Proof.
  induction 1 as [|x l Hx _ IH]; [done|].
  by rewrite filter_cons, decide_False.
Qed.

Lemma split_run (f : N -> bool) (s : str) :
  Forall (fun c => f c = false) s \/
  exists pre run rest : str, s = pre ++ run ++ rest /\
    Forall (fun c => f c = false) pre /\ run <> [] /\
    Forall (fun c => f c = true) run /\
    (rest = [] \/ exists c t, rest = c :: t /\ f c = false).
Proof.
  induction s as [|c s IH]; [by left|].
  destruct (f c) eqn:Hc.
  - right. destruct s as [|d s].
    + exists [], [c], []. repeat split; auto.
    + destruct (f d) eqn:Hd.
      * destruct IH as [IH|(pre & run & rest & Hs & Hpre & Hne & Hrun & Hr)].
        { apply Forall_cons in IH as [IH _]. congruence. }
        destruct pre as [|p pre].
        -- exists [], (c :: run), rest. simpl in *. rewrite Hs.
           repeat split; auto.
        -- apply Forall_cons in Hpre as [Hp _]. simpl in Hs.
           injection Hs as -> _. congruence.
      * exists [], [c], (d :: s). repeat split; eauto.
  - destruct IH as [IH|(pre & run & rest & -> & Hpre & Hne & Hrun & Hr)].
    + left. by constructor.
    + right. exists (c :: pre), run, rest. repeat split; auto.
Qed.

Lemma match_class_none k c t p :
  cset_mem k c = false -> match_at (Rep k 1 None) p (c :: t) = None.
Proof.
  intros Hc. unfold match_at. cbn [rmatch]. by apply rep_none.
Qed.

Lemma search_class_none k (s : str) pos :
  Forall (fun c => cset_mem k c = false) s ->
  search_from (Rep k 1 None) pos s = None.
Proof.
  intros Hs. rewrite <- (app_nil_r s). rewrite search_from_skip.
  - reflexivity.
  - eapply Forall_impl; [exact Hs|]. intros c Hc t p.
    by apply match_class_none.
Qed.

Lemma search_class_run k (pre run rest : str) pos :
  Forall (fun c => cset_mem k c = false) pre -> run <> [] ->
  Forall (fun c => cset_mem k c = true) run ->
  (rest = [] \/ exists c t, rest = c :: t /\ cset_mem k c = false) ->
  search_from (Rep k 1 None) pos (pre ++ run ++ rest) =
  Some (MatchObj (pos + length pre) (pos + length pre + length run) run []).
Proof.
  intros Hpre Hne Hrun Hrest. rewrite search_from_skip.
  2:{ eapply Forall_impl; [exact Hpre|]. intros c Hc t p.
      by apply match_class_none. }
  destruct run as [|d run]; [done|]. cbn [app search_from].
  assert (match_at (Rep k 1 None) (pos + length pre) (d :: run ++ rest) =
          Some (MatchObj (pos + length pre)
                  (pos + length pre + length (d :: run)) (d :: run) []))
    as ->; [|done].
  unfold match_at. cbn [rmatch].
  change (d :: run ++ rest) with ((d :: run) ++ rest).
  apply rep_greedy; [done|done|simpl; lia|].
  f_equal. f_equal.
  replace (pos + length pre + length (d :: run) - (pos + length pre))%nat
    with (length (d :: run)) by lia.
  apply take_app_length.
Qed.

Lemma kw_sep_class c : cset_mem [ASpace; AChr comma; AChr semicolon] c = kw_sep c.
Proof. unfold kw_sep. simpl. by rewrite orb_false_r, orb_assoc. Qed.

Lemma re_split_from_none n pos (s : str) :
  Forall (fun c => kw_sep c = false) s ->
  re_split_from n re_kw_sep pos s = [s].
Proof.
  intros Hs. destruct n; [done|]. cbn [re_split_from]. unfold re_kw_sep.
  rewrite search_class_none; [done|].
  eapply Forall_impl; [exact Hs|]. intros c Hc. by rewrite kw_sep_class.
Qed.

Lemma re_split_from_run n pos (pre run rest : str) :
  Forall (fun c => kw_sep c = false) pre -> run <> [] ->
  Forall (fun c => kw_sep c = true) run ->
  (rest = [] \/ exists c t, rest = c :: t /\ kw_sep c = false) ->
  re_split_from (S n) re_kw_sep pos (pre ++ run ++ rest) =
  pre :: re_split_from n re_kw_sep (pos + length pre + length run) rest.
Proof.
  intros Hpre Hne Hrun Hrest. cbn [re_split_from]. unfold re_kw_sep.
  rewrite search_class_run; [| |done| |].
  - cbn [m_start m_end]. f_equal.
    + replace (pos + length pre - pos)%nat with (length pre) by lia.
      apply take_app_length.
    + f_equal.
      replace (pos + length pre + length run - pos)%nat
        with (length pre + length run)%nat by lia.
      rewrite app_assoc, <- length_app. apply drop_app_length.
  - eapply Forall_impl; [exact Hpre|]. intros c Hc. by rewrite kw_sep_class.
  - eapply Forall_impl; [exact Hrun|]. intros c Hc. by rewrite kw_sep_class.
  - destruct Hrest as [->|(c & t & -> & Hc)]; [by left|right].
    exists c, t. by rewrite kw_sep_class.
Qed.

(** the pieces depend neither on the position the text starts at nor on
    the number of rounds, once there are more rounds than characters *)
Lemma re_split_from_rounds n : forall n' pos pos' (s : str),
  (length s < n)%nat -> (length s < n')%nat ->
  re_split_from n re_kw_sep pos s = re_split_from n' re_kw_sep pos' s.
Proof.
  induction n as [|n IH]; intros n' pos pos' s Hn Hn'; [lia|].
  destruct n' as [|n']; [lia|].
  destruct (split_run kw_sep s)
    as [Hs|(pre & run & rest & -> & Hpre & Hne & Hrun & Hrest)].
  - by rewrite !re_split_from_none.
  - rewrite !re_split_from_run by done. f_equal.
    rewrite !length_app in Hn, Hn'.
    assert (0 < length run)%nat by (destruct run; [done|simpl; lia]).
    apply IH; lia.
Qed.

Lemma re_split_run (pre run rest : str) :
  Forall (fun c => kw_sep c = false) pre -> run <> [] ->
  Forall (fun c => kw_sep c = true) run ->
  (rest = [] \/ exists c t, rest = c :: t /\ kw_sep c = false) ->
  re_split re_kw_sep (pre ++ run ++ rest) = pre :: re_split re_kw_sep rest.
Proof.
  intros Hpre Hne Hrun Hrest. unfold re_split.
  rewrite re_split_from_run by done. f_equal.
  rewrite !length_app.
  assert (0 < length run)%nat by (destruct run; [done|simpl; lia]).
  apply re_split_from_rounds; lia.
Qed.

Lemma keywords_word (w : str) :
  Forall (fun c => kw_sep c = false) w ->
  keywords w = match w with [] => [] | _ :: _ => [w] end.
Proof.
  intros Hw. unfold keywords, re_split.
  rewrite re_split_from_none by done. by destruct w.
Qed.

Lemma keywords_run (pre run rest : str) :
  Forall (fun c => kw_sep c = false) pre -> run <> [] ->
  Forall (fun c => kw_sep c = true) run ->
  (rest = [] \/ exists c t, rest = c :: t /\ kw_sep c = false) ->
  keywords (pre ++ run ++ rest) = keywords pre ++ keywords rest.
Proof.
  intros Hpre Hne Hrun Hrest. rewrite (keywords_word pre) by done.
  unfold keywords at 1. rewrite re_split_run by done.
  by destruct pre.
Qed.

Lemma keywords_blank (run : str) :
  Forall (fun c => kw_sep c = true) run -> keywords run = [].
Proof.
  intros Hrun. destruct run as [|c run]; [done|].
  rewrite <- (app_nil_r (c :: run)).
  change (c :: run) with ([] ++ (c :: run)) at 1. rewrite <- app_assoc.
  rewrite keywords_run; auto.
Qed.

(** X18. the keywords of a text are its maximal runs of characters other
    than blanks, commas and semicolons, in order: a text without such a
    character is one keyword (none when it is empty), and a run of
    separators of any length cuts the text in two. *)
Theorem keywords_are_the_words_between_separators :
  (forall w : str, Forall (fun c => kw_sep c = false) w ->
     keywords w = match w with [] => [] | _ :: _ => [w] end) /\
  (forall pre run rest : str,
     Forall (fun c => kw_sep c = false) pre -> run <> [] ->
     Forall (fun c => kw_sep c = true) run ->
     keywords (pre ++ run ++ rest) = keywords pre ++ keywords rest).
Proof.
  split; [exact keywords_word|].
  intros pre run rest Hpre Hne Hrun.
  destruct (split_run (fun c => negb (kw_sep c)) rest)
    as [Hs|(run' & w & rest' & -> & Hrun' & Hw & Hw' & Hrest)].
  - (* the rest is separators only *)
    assert (Forall (fun c => kw_sep c = true) rest) as Hr.
    { eapply Forall_impl; [exact Hs|]. intros c. simpl. destruct (kw_sep c); simpl; congruence. }
    rewrite (keywords_blank rest) by done.
    rewrite app_assoc, <- (app_nil_r ((pre ++ run) ++ rest)), <- !app_assoc.
    rewrite (app_assoc run). rewrite keywords_run; auto.
    + by destruct run.
    + by apply Forall_app.
  - assert (Forall (fun c => kw_sep c = true) run') as Hr.
    { eapply Forall_impl; [exact Hrun'|]. intros c. simpl. destruct (kw_sep c); simpl; congruence. }
    assert (exists c t, w ++ rest' = c :: t /\ kw_sep c = false) as Hhead.
    { destruct w as [|c w]; [done|]. apply Forall_cons in Hw' as [Hc _].
      exists c, (w ++ rest'). split; [done|].
      simpl in Hc. destruct (kw_sep c); simpl in *; congruence. }
    rewrite (app_assoc run). rewrite keywords_run; auto.
    + f_equal. destruct run' as [|c run']; [done|].
      change (c :: run') with ([] ++ (c :: run')). rewrite <- app_assoc.
      rewrite keywords_run; auto.
    + by destruct run.
    + by apply Forall_app.
Qed.

(** X19. a keyword is never empty and holds no separator, and the keywords
    together are the text without its separators. *)
Theorem keywords_hold_no_separator (text : str) :
  Forall (fun w => w <> [] /\ Forall (fun c => kw_sep c = false) w)
    (keywords text) /\
  concat (keywords text) = filter (fun c => kw_sep c = false) text.
Proof.
  remember (length text) as n eqn:Hn. revert text Hn.
  induction (lt_wf n) as [n _ IH]; intros text ->.
  destruct (split_run kw_sep text)
    as [Hs|(pre & run & rest & -> & Hpre & Hne & Hrun & Hrest)].
  - rewrite keywords_word by done. destruct text as [|c t].
    + by split.
    + split; [constructor; [split; [done|exact Hs]|constructor]|].
      simpl concat. rewrite app_nil_r.
      symmetry. by apply filter_all.
  - rewrite keywords_run by done.
    assert (0 < length run)%nat by (destruct run; [done|simpl; lia]).
    destruct (IH (length rest)) with (text := rest) as [IH1 IH2];
      [rewrite !length_app; lia|done|].
    rewrite keywords_word by done. rewrite !filter_app.
    assert (filter (fun c => kw_sep c = false) run = []) as ->.
    { apply filter_none. eapply Forall_impl; [exact Hrun|].
      intros c Hc. simpl. congruence. }
    rewrite (filter_all _ pre) by done.
    destruct pre as [|c pre]; simpl.
    + by split.
    + split; [by constructor|]. by rewrite IH2.
Qed.

End KeywordProps.

(** ** Flags, modes and the chat history *)

Section HandlerProps.
Context {U : UnicodeData}.

Lemma strip_empty_blank s : strip s = [] -> forallb isspace s = true.
Proof.
  unfold strip. intros Hs.
  destruct (lstrip_split s) as (pre & Hpre & Hl).
  destruct (rstrip_split (lstrip s)) as (post & Hpost & Hr).
  rewrite Hs in Hr. simpl in Hr. rewrite Hl, Hr, forallb_app.
  by rewrite Hpre, Hpost.
Qed.

(** X20. TM_ENABLE is on unless the variable holds something else than 1
    once trimmed: unset, empty and blank values leave it on.  TM_DEBUG is
    on only when the trimmed value is 1. *)
Theorem tm_flags_defaults (env : gmap str str) :
  (TM_ENABLE env = true <->
     forallb isspace (default [] (env !! utf8 "TM_ENABLE")) = true \/
     strip (default [] (env !! utf8 "TM_ENABLE")) = utf8 "1") /\
  (TM_DEBUG env = true <->
     strip (default [] (env !! utf8 "TM_DEBUG")) = utf8 "1").
Proof.
  unfold TM_ENABLE, TM_DEBUG, _env, getenv. split.
  - destruct (strip (default [] (env !! utf8 "TM_ENABLE"))) as [|c t] eqn:Hs.
    + split; [left; by apply strip_empty_blank|done].
    + cbn [py_or]. rewrite str_eqb_eq. split; [by right|].
      intros [Hb|]; [|done]. apply strip_blank in Hb. congruence.
  - destruct (strip (default [] (env !! utf8 "TM_DEBUG"))) as [|c t] eqn:Hs.
    + split; [done|]. intros H. by vm_compute in H.
    + cbn [py_or]. by rewrite str_eqb_eq.
Qed.

Lemma get_mode_set um uid mode : get_mode (set_mode um uid mode) uid = mode.
Proof. unfold get_mode, set_mode. by rewrite lookup_insert_eq. Qed.

(** X21. a text message goes where the last button pressed says: to the
    model after the AI button, to the trademark search with its keywords
    after the trademark button, and to neither after the secretary button,
    after /start or for a user who pressed nothing.  A blank message is
    answered as empty whatever the mode. *)
Theorem handle_text_follows_the_mode
    (model : option (str -> gen_reply)) (um : gmap Z str) (uid chat_id : Z)
    (message_text : option str) (h : gmap Z history) :
  strip (default [] message_text) <> [] ->
  let text := strip (default [] message_text) in
  let hint := Reply (utf8 "В " ++ SECRETARY_LABEL
                     ++ utf8 " пришли голосовое сообщение 🎙️") in
  handle_text model (switch_mode um uid AI_LABEL).1 uid chat_id message_text h
    = (Reply (ai_chat_reply model uid text h).1,
       (ai_chat_reply model uid text h).2) /\
  handle_text model (switch_mode um uid TM_LABEL).1 uid chat_id message_text h
    = (SearchTM chat_id (keywords text), h) /\
  handle_text model (switch_mode um uid SECRETARY_LABEL).1 uid chat_id
    message_text h = (hint, h) /\
  handle_text model (on_start um uid) uid chat_id message_text h
    = (hint, h) /\
  (um !! uid = None ->
   handle_text model um uid chat_id message_text h = (hint, h)).
Proof.
  intros Hne text hint. unfold handle_text, on_start. fold text.
  destruct text as [|c t] eqn:Ht; [done|].
  repeat split.
  - change (switch_mode um uid AI_LABEL).1 with (set_mode um uid MOD_AI).
    rewrite get_mode_set. change (str_eqb MOD_AI MOD_AI) with true.
    cbv iota. by destruct (ai_chat_reply model uid (c :: t) h).
  - change (switch_mode um uid TM_LABEL).1 with (set_mode um uid MOD_TM).
    by rewrite get_mode_set.
  - change (switch_mode um uid SECRETARY_LABEL).1
      with (set_mode um uid MOD_SEC).
    by rewrite get_mode_set.
  - by rewrite get_mode_set.
  - intros Hnone. unfold get_mode. by rewrite Hnone.
Qed.

(** X22. a blank message is answered as empty in every mode, and neither
    the model nor the search is reached. *)
Theorem handle_text_blank
    (model : option (str -> gen_reply)) (um : gmap Z str) (uid chat_id : Z)
    (message_text : option str) (h : gmap Z history) :
  forallb isspace (default [] message_text) = true ->
  handle_text model um uid chat_id message_text h
  = (Reply (utf8 "Пустое сообщение."), h).
Proof. intros Hb. unfold handle_text. by rewrite strip_blank. Qed.

Lemma length_last_n {A} n (l : list A) : (length (last_n n l) <= n)%nat.
Proof. unfold last_n. rewrite length_drop. lia. Qed.

Lemma py_or_nonempty a b : b <> [] -> py_or a b <> [].
Proof. by destruct a. Qed.

Lemma ai_chat_reply_history (generate_content : str -> gen_reply) (uid : Z)
    (text : str) (h : gmap Z history) :
  let r := ai_chat_reply (Some generate_content) uid text h in
  r.2 !! uid = Some (last_n 20 (default [] (h !! uid))
                     ++ [(role_user, text); (role_assistant, r.1)]).
Proof.
  cbv zeta. unfold ai_chat_reply. cbn [fst snd].
  set (h1 := match h !! uid with Some _ => h | None => <[uid:=[]]> h end).
  assert (default [] (h1 !! uid) = default [] (h !! uid)) as Hh1.
  { unfold h1. destruct (h !! uid) eqn:E; [by rewrite E|].
    by rewrite lookup_insert_eq. }
  by rewrite Hh1, lookup_insert_eq, <- app_assoc.
Qed.

(** X23. with a model, [ai_chat_reply] answers with a text that is never
    empty and leaves as the user's history the last twenty entries of the
    old one, then the text and the answer: never more than twenty-two
    entries.  Other users' histories are not touched, and without a model
    nothing is. *)
Theorem ai_chat_reply_keeps_a_short_history
    (generate_content : str -> gen_reply) (uid : Z) (text : str)
    (h : gmap Z history) :
  let r := ai_chat_reply (Some generate_content) uid text h in
  r.1 <> [] /\
  r.2 !! uid = Some (last_n 20 (default [] (h !! uid))
                     ++ [(role_user, text); (role_assistant, r.1)]) /\
  (forall l, r.2 !! uid = Some l -> (length l <= 22)%nat) /\
  (forall u, u <> uid -> r.2 !! u = h !! u) /\
  (ai_chat_reply None uid text h).2 = h.
Proof.
  intros r. pose proof (ai_chat_reply_history generate_content uid text h)
    as Hr. cbv zeta in Hr. fold r in Hr.
  split; [|split; [exact Hr|split; [|split; [|done]]]].
  - unfold r, ai_chat_reply. cbn [fst].
    destruct (generate_content _) as [t|e].
    + apply py_or_nonempty. by vm_compute.
    + by vm_compute.
  - intros l Hl. rewrite Hr in Hl. injection Hl as <-.
    rewrite length_app. cbn [length].
    pose proof (length_last_n 20 (default [] (h !! uid))). lia.
  - intros u Hu. unfold r, ai_chat_reply. cbn [snd].
    rewrite lookup_insert_ne by done.
    destruct (h !! uid) eqn:E; [done|]. by rewrite lookup_insert_ne.
Qed.

Lemma exchanges_app a b : exchanges a -> exchanges b -> exchanges (a ++ b).
Proof.
  revert a. fix IH 1. intros [|[r1 t1] [|[r2 t2] a]]; simpl; try done.
  intros (? & ? & Ha) Hb. repeat split; [done..|]. by apply IH.
Qed.

Lemma exchanges_drop2 k : forall l,
  exchanges l -> exchanges (drop (2 * k) l).
Proof.
  induction k as [|k IH]; intros l Hl; [done|].
  replace (2 * S k)%nat with (S (S (2 * k))) by lia.
  destruct l as [|[r1 t1] [|[r2 t2] l]]; simpl in *; try done.
  destruct Hl as (_ & _ & Hl). by apply IH.
Qed.

Lemma exchanges_even l : exchanges l -> exists k, length l = (2 * k)%nat.
Proof.
  revert l. fix IH 1. intros [|[r1 t1] [|[r2 t2] l]]; simpl; try done.
  - by exists 0%nat.
  - intros (_ & _ & Hl). destruct (IH l Hl) as [k Hk].
    exists (S k). lia.
Qed.

Lemma exchanges_last_n l : exchanges l -> exchanges (last_n 20 l).
Proof.
  intros Hl. unfold last_n. destruct (exchanges_even l Hl) as [k Hk].
  rewrite Hk. replace (2 * k - 20)%nat with (2 * (k - 10))%nat by lia.
  by apply exchanges_drop2.
Qed.

(** X24. a history made of whole exchanges, a user's text and then its
    answer, stays one: cutting it to twenty entries drops whole exchanges
    only, and the call adds one more. *)
Theorem ai_chat_reply_keeps_whole_exchanges
    (model : option (str -> gen_reply)) (uid : Z) (text : str)
    (h : gmap Z history) :
  exchanges (default [] (h !! uid)) ->
  exchanges (default [] ((ai_chat_reply model uid text h).2 !! uid)).
Proof.
  intros Hh. destruct model as [gen|]; [|done].
  pose proof (ai_chat_reply_history gen uid text h) as Hr.
  cbv zeta in Hr. rewrite Hr. cbn [default]. apply exchanges_app; [by apply exchanges_last_n|].
  by cbn.
Qed.

End HandlerProps.

(** ** The summary service *)

Section ServiceProps.

Lemma find_lt sub s i : find sub s = Some i -> (i <= length s)%nat.
Proof.
  revert i. induction s as [|c s IH]; intros i; simpl.
  - destruct (startswith sub []); [intros [= <-]; lia|done].
  - destruct (startswith sub (c :: s)); [intros [= <-]; lia|].
    destruct (find sub s) as [j|]; [|done]. intros [= <-].
    specialize (IH j eq_refl). lia.
Qed.

Lemma find_startswith sub s i :
  find sub s = Some i -> startswith sub (drop i s) = true.
Proof.
  revert i. induction s as [|c s IH]; intros i; simpl.
  - destruct (startswith sub []) eqn:E; [|done]. intros [= <-]. done.
  - destruct (startswith sub (c :: s)) eqn:E; [by intros [= <-]|].
    destruct (find sub s) as [j|]; [|done]. intros [= <-]. by apply IH.
Qed.

Lemma startswith_split p s : startswith p s = true -> s = p ++ drop (length p) s.
Proof.
  revert s. induction p as [|a p IH]; intros [|b s]; simpl; try done.
  intros [->%N.eqb_eq Hp]%andb_true_iff. f_equal. by apply IH.
Qed.

(** the first occurrence cuts the text in three *)
Lemma find_split sub s i :
  find sub s = Some i -> s = take i s ++ sub ++ drop (i + length sub) s.
Proof.
  intros Hf. rewrite <- (take_drop i s) at 1. f_equal.
  rewrite <- drop_drop. by apply startswith_split, find_startswith.
Qed.

(** more rounds than characters change nothing *)
Lemma replace_from_rounds old new n : forall m s,
  old <> [] -> (length s <= n)%nat -> (length s <= m)%nat ->
  replace_from n old new s = replace_from m old new s.
Proof.
  induction n as [|n IH]; intros m s Hold Hn Hm.
  - destruct s; [|simpl in Hn; lia]. destruct m; [done|]. simpl.
    by destruct old.
  - destruct m as [|m].
    + destruct s; [|simpl in Hm; lia]. simpl. by destruct old.
    + simpl. destruct (find old s) as [i|] eqn:Hf; [|done].
      do 2 f_equal. pose proof (find_lt _ _ _ Hf).
      assert (0 < length old)%nat by (destruct old; [done|simpl; lia]).
      pose proof (find_split _ _ _ Hf) as Hs.
      apply (f_equal length) in Hs. rewrite !length_app, length_take in Hs.
      apply IH; [done|lia..].
Qed.

(** X25. [summarize] raises the status 400 exactly when the transcript is
    empty or blank, whatever the model would say; every other
    [HTTPException] it raises, for a failure of the model, is a 502 or a
    503. *)
Theorem summarize_refuses_blank_transcripts
    (generate_content : str -> gemini) (transcript : str) :
  ((exists d, summarize generate_content transcript
              = inl {| status_code := 400; detail := d |})
   <-> forallb isspace transcript = true) /\
  (forall e, summarize generate_content transcript = inl e ->
     status_code e = 400 \/ status_code e = 502 \/ status_code e = 503).
Proof.
  unfold summarize. split.
  - split.
    + intros [d Hd]. apply strip_empty_blank.
      destruct (strip transcript) as [|c t]; [done|].
      destruct (generate_content _); [|done..].
      by destruct (contains _ _).
    + intros Hb. rewrite strip_blank by done. eauto.
  - intros e. destruct (strip transcript) as [|c t]; [intros [= <-]; auto|].
    destruct (generate_content _); try (intros [= <-]; auto).
    by destruct (contains _ _).
Qed.

Lemma startswith_prefix p s : startswith p s = true <-> p `prefix_of` s.
Proof.
  split.
  - intros H. exists (drop (length p) s). by apply startswith_split.
  - intros [k ->]. apply startswith_app.
Qed.

Lemma prefix_drop_mono {A} j (l1 l2 : list A) :
  l1 `prefix_of` l2 -> drop j l1 `prefix_of` drop j l2.
Proof. intros [k ->]. rewrite drop_app. by apply prefix_app_r. Qed.

(** no occurrence starts before the one [find] gives *)
Lemma find_first sub s i j :
  find sub s = Some i -> (j < i)%nat -> startswith sub (drop j s) = false.
Proof.
  revert i j. induction s as [|c s IH]; intros i j; simpl.
  - destruct (startswith sub []); [intros [= <-]; lia|done].
  - destruct (startswith sub (c :: s)) eqn:E; [intros [= <-]; lia|].
    destruct (find sub s) as [k|] eqn:Hk; [|done]. intros [= <-] Hj.
    destruct j as [|j]; [done|]. simpl. apply (IH k); [done|lia].
Qed.

Lemma find_not_before sub s i :
  sub <> [] -> find sub s = Some i ->
  contains sub (removelast (take i s ++ sub)) = false.
Proof.
  intros Hsub Hf. unfold contains. apply bool_decide_eq_false.
  intros [j Hj]. pose proof (find_lt _ _ _ Hf) as Hi.
  pose proof (find_startswith _ _ _ Hj) as Hst.
  pose proof (find_split _ _ _ Hf) as Hs.
  assert (0 < length sub)%nat by (destruct sub; [done|simpl; lia]).
  rewrite removelast_firstn_len in Hst.
  apply startswith_prefix in Hst.
  pose proof (prefix_length _ _ Hst) as Hlen.
  rewrite length_drop, length_take, length_app, length_take in Hlen.
  assert (j < i)%nat as Hji by lia.
  pose proof (find_first _ _ _ j Hf Hji) as Hno.
  enough (startswith sub (drop j s) = true) by congruence.
  apply startswith_prefix. etrans; [exact Hst|].
  apply prefix_drop_mono. etrans; [apply prefix_take|].
  rewrite Hs at 2. rewrite (app_assoc (take i s)). by apply prefix_app_r.
Qed.

(** X26. both fields of an answer come back trimmed.  The specification
    part is cut at the first [### ТЗ] heading of the model's text: the
    text is the summary part, the heading and the specification part; a
    text without the heading is the summary as it is, trimmed, and the
    specification is empty. *)
Theorem summarize_cuts_at_the_spec_heading
    (generate_content : str -> gemini) (transcript : str)
    (out : SummarizeOut) :
  summarize generate_content transcript = inr out ->
  strip (summary out) = summary out /\
  strip (tech_spec out) = tech_spec out /\
  exists t, generate_content (PROMPT_TMPL_format (strip transcript))
            = Response t /\
    ((contains spec_heading (strip (default [] t)) = false /\
      summary out = strip (default [] t) /\ tech_spec out = []) \/
     (exists a b, strip (default [] t) = a ++ spec_heading ++ b /\
        contains spec_heading (removelast (a ++ spec_heading)) = false /\
        summary out = strip (replace summary_heading [] a) /\
        tech_spec out = strip b)).
Proof.
  unfold summarize. destruct (strip transcript) as [|c tr] eqn:Htr; [done|].
  destruct (generate_content _) as [t| | |] eqn:Hg; [|done..].
  destruct (contains _ _) eqn:Hc.
  - unfold contains in Hc. apply bool_decide_eq_true in Hc as [i Hi].
    unfold split_once. rewrite Hi. cbn [lookup_total list_lookup_total].
    intros [= <-]. cbn [summary tech_spec]. rewrite !strip_idemp.
    repeat split. exists t. split; [done|right].
    eexists _, _. split; [by apply find_split|].
    split; [by apply find_not_before|done].
  - intros [= <-]. cbn [summary tech_spec]. rewrite strip_idemp.
    repeat split. exists t. split; [done|by left].
Qed.

End ServiceProps.

(** ** Samples *)

(** Blanks around ["7:05"]. *)
Lemma normalize_time_ignores_blanks_sample :
  normalize_time (U := fragment) (utf8 "  " ++ utf8 "7:05" ++ utf8 " ")
  = normalize_time (U := fragment) (utf8 "7:05").
Proof.
  apply (normalize_time_ignores_blanks (U := fragment) (utf8 "  ")
           (utf8 "7:05") (utf8 " ")); reflexivity.
Defined.

(** A daily row with padded cells, read as sheet row 2. *)
Lemma daily_rows_sample :
  parse_row (U := fragment) 2 sample_padded [] =
  (Ok (Some (Daily (utf8 "row-2") (utf8 "Standup") 9 30)), []).
Proof.
  apply (daily_rows (U := fragment) 2 (utf8 " да ") (utf8 " Standup ")
           (utf8 "ДЕНЬ") (utf8 "x") (utf8 "y") (utf8 " 9.30 ") [] 9 30).
  - apply str_in_elem. reflexivity.
  - discriminate.
  - reflexivity.
  - reflexivity.
Defined.


(** A row without a message. *)
Lemma active_row_refusals_sample :
  parse_row (U := fragment) 5 sample_no_message [] =
  (Ok None, [RowWarning 5 EmptyMessage]).
Proof.
  destruct (active_row_refusals (U := fragment) 5 (utf8 "1") (utf8 "  ")
              (utf8 "день") [] [] (utf8 "10:00") []) as (Hempty & _).
  - apply str_in_elem. reflexivity.
  - apply Hempty. reflexivity.
Defined.

(** The item of the weekly sample row. *)
Lemma parse_row_items_are_well_formed_sample :
  item_ok 3 (Weekly (utf8 "row-3") (utf8 "Sync") 0 14 0).
Proof.
  destruct (parse_row_items_are_well_formed (U := fragment) 3 (utf8 "TRUE")
              (utf8 "Sync") (utf8 "неделя") [] (utf8 "пн") (utf8 "14:00")
              [] [] (Weekly (utf8 "row-3") (utf8 "Sync") 0 14 0))
    as (Hok & _).
  - reflexivity.
  - exact Hok.
Defined.

(** A row with the time 25:00. *)
Lemma active_rows_warn_once_sample :
  exists why,
    [RowWarning 2 (BadTime (utf8 "25:00"))] = [] ++ [RowWarning 2 why].
Proof.
  destruct (active_rows_warn_once (U := fragment) 2 (utf8 "TRUE")
              (utf8 "Lunch") (utf8 "день") [] [] (utf8 "25:00") []
              [RowWarning 2 (BadTime (utf8 "25:00"))]) as (Hon & _).
  - reflexivity.
  - apply Hon. apply str_in_elem. reflexivity.
Defined.


(** The poll job survives a cycle over the sample grid. *)
Lemma refresh_leaves_other_jobs_sample :
  jobs (refresh_schedule (U := fragment) (Sheet sample_grid) sample_world).2
    !! utf8 "sheet-poll" = jobs sample_world !! utf8 "sheet-poll" /\
  jobs (poll (U := fragment) (Sheet sample_grid) sample_world).2
    !! utf8 "sheet-poll" = jobs sample_world !! utf8 "sheet-poll".
Proof.
  apply (refresh_leaves_other_jobs (U := fragment) (Sheet sample_grid)
           sample_world (utf8 "sheet-poll")).
  reflexivity.
Defined.




(** After the trademark button, a text is searched by its keywords. *)
Lemma handle_text_follows_the_mode_sample :
  handle_text (U := fragment) None (switch_mode ∅ 7 TM_LABEL).1 7 42
    (Some (utf8 " alpha, beta ")) ∅
  = (SearchTM 42 [utf8 "alpha"; utf8 "beta"], ∅).
Proof.
  destruct (handle_text_follows_the_mode (U := fragment) None ∅ 7 42
              (Some (utf8 " alpha, beta ")) ∅) as (_ & Htm & _).
  - discriminate.
  - exact Htm.
Defined.

(** A blank message in the AI mode. *)
Lemma handle_text_blank_sample :
  handle_text (U := fragment) (Some sample_model)
    (switch_mode ∅ 7 AI_LABEL).1 7 42 (Some (utf8 "  ")) sample_history
  = (Reply (utf8 "Пустое сообщение."), sample_history).
Proof.
  apply (handle_text_blank (U := fragment)). reflexivity.
Defined.

(** One exchange, then another. *)
Lemma ai_chat_reply_keeps_whole_exchanges_sample :
  exchanges
    (default []
       ((ai_chat_reply (Some sample_model) 7 (utf8 "hi") sample_history).2
          !! 7%Z)).
Proof.
  apply (ai_chat_reply_keeps_whole_exchanges (Some sample_model) 7
           (utf8 "hi") sample_history).
  vm_compute. repeat split.
Defined.

(** A reply with both headings. *)
Lemma summarize_cuts_at_the_spec_heading_sample :
  strip (summary sample_out) = summary sample_out /\
  strip (tech_spec sample_out) = tech_spec sample_out.
Proof.
  destruct (summarize_cuts_at_the_spec_heading sample_gemini (utf8 "hello")
              sample_out) as (Hs & Ht & _).
  - vm_compute. reflexivity.
  - split; assumption.
Defined.
